(** * ConnectHer: sponsor records and the upload pipeline

  A shallow embedding of [models/Sponsor.js], [routes/sponsors.js] and
  [routes/upload.js].  Mongoose documents are records, the document
  store is a finite map from [_id] to document, and every route handler
  is a function from the store before the request to the response and
  the store after it. *)

From Stdlib Require Import ZArith Ascii String.
From stdpp Require Import gmap strings list pretty.

Open Scope Z_scope.
Open Scope string_scope.

(** An [ObjectId] is generated by the driver and is unique; it is modelled
  by the rank of its generation.  Route parameters are taken after the
  decoding of their hexadecimal text. *)
Abbreviation ObjectId := nat (only parsing).

(** ** models/Sponsor.js *)
Module Sponsor.

(** A document of [PostSchema], as embedded in a sponsor.  A [Number]
    that holds a count is an integer; the arithmetic of the handlers on
    it is exact as long as the count stays below 2^53. *)
Record Post := mkPost {
  p_id : ObjectId;
  media : option string;
  caption : option string;
  jobLink : option string;
  views : Z;
  clicks : Z;
  createdAt : Z
}.

(** A plain JavaScript object offered where a post is expected.  A
    property that the object does not have reads as [undefined], here
    [None]. *)
Record PostObject := mkPostObject {
  o_id : option ObjectId;
  o_media : option string;
  o_caption : option string;
  o_jobLink : option string;
  o_views : option Z;
  o_clicks : option Z;
  o_createdAt : option Z
}.

(** Casting a plain object to [PostSchema] builds a new subdocument: the
    given properties are copied, [views] and [clicks] default to 0,
    [createdAt] to the current time, and [_id] to a fresh identifier.
    The plain object itself is left as it was. *)
Definition cast_post (fresh : ObjectId) (now : Z) (o : PostObject) : Post :=
  {| p_id := default fresh (o_id o);
     media := o_media o;
     caption := o_caption o;
     jobLink := o_jobLink o;
     views := default 0 (o_views o);
     clicks := default 0 (o_clicks o);
     createdAt := default now (o_createdAt o) |}.

(** A document of [SponsorSchema]. *)
Record Sponsor := mkSponsor {
  s_id : ObjectId;
  companyName : option string;
  logo : option string;
  objectives : option string;
  posts : list Post;
  postCount : Z
}.

(** [companyName: { type: String, required: true }]: a required string
    is neither missing nor empty. *)
Definition validate (s : Sponsor) : bool :=
  match companyName s with
  | Some n => negb (String.eqb n "")
  | None => false
  end.

Definition set_posts (l : list Post) (s : Sponsor) : Sponsor :=
  {| s_id := s_id s; companyName := companyName s; logo := logo s;
     objectives := objectives s; posts := l; postCount := postCount s |}.

Definition set_postCount (n : Z) (s : Sponsor) : Sponsor :=
  {| s_id := s_id s; companyName := companyName s; logo := logo s;
     objectives := objectives s; posts := posts s; postCount := n |}.

Definition set_caption (c : option string) (p : Post) : Post :=
  {| p_id := p_id p; media := media p; caption := c; jobLink := jobLink p;
     views := views p; clicks := clicks p; createdAt := createdAt p |}.

Definition set_jobLink (j : option string) (p : Post) : Post :=
  {| p_id := p_id p; media := media p; caption := caption p; jobLink := j;
     views := views p; clicks := clicks p; createdAt := createdAt p |}.

Definition set_media (m : option string) (p : Post) : Post :=
  {| p_id := p_id p; media := m; caption := caption p; jobLink := jobLink p;
     views := views p; clicks := clicks p; createdAt := createdAt p |}.

Definition set_views (v : Z) (p : Post) : Post :=
  {| p_id := p_id p; media := media p; caption := caption p;
     jobLink := jobLink p; views := v; clicks := clicks p;
     createdAt := createdAt p |}.

Definition set_clicks (c : Z) (p : Post) : Post :=
  {| p_id := p_id p; media := media p; caption := caption p;
     jobLink := jobLink p; views := views p; clicks := c;
     createdAt := createdAt p |}.

(** [posts.id(pid)] and [posts.findIndex(p => p._id.toString() === pid)]:
    the first post of the list with that [_id], with its index. *)
Definition posts_id (l : list Post) (pid : ObjectId) : option (nat * Post) :=
  list_find (λ p, p_id p = pid) l.

End Sponsor.
Export Sponsor.

(** ** routes/sponsors.js

    A handler below is the function the router runs once
    [verifyTokenAndRole] and multer have let the request through. *)
Module Routes.

(** Modelled from the spec: [models/Notification] is not among the
    sources; a notification is an independent record that holds the
    fields [Notification.create] is called with, and creating one appends
    it to a collection of its own. *)
Record Notification := mkNotification {
  n_type : string;
  n_title : string;
  n_content : string;
  sponsorId : option ObjectId;
  postId : option ObjectId;
  n_createdAt : Z;
  forAll : bool
}.

(** The document store and the identifier generator. *)
Record Store := mkStore {
  sponsors : gmap nat Sponsor;
  notifications : list Notification;
  nextId : ObjectId
}.

Definition empty_store : Store :=
  {| sponsors := ∅; notifications := []; nextId := 0%nat |}.

(** [new ObjectId()] *)
Definition fresh_id (st : Store) : ObjectId * Store :=
  (nextId st,
   {| sponsors := sponsors st; notifications := notifications st;
      nextId := S (nextId st) |}).

(** [Sponsor.findById(id)] *)
Definition findById (id : ObjectId) (st : Store) : option Sponsor :=
  sponsors st !! id.

(** [doc.save()]: the schema is validated, then the document is written
    under its [_id].  [None] is a rejected promise. *)
Definition save (s : Sponsor) (st : Store) : option Store :=
  if validate s
  then Some {| sponsors := <[s_id s := s]> (sponsors st);
               notifications := notifications st;
               nextId := nextId st |}
  else None.

(** [Notification.create(n)] *)
Definition Notification_create (n : Notification) (st : Store) : Store :=
  {| sponsors := sponsors st;
     notifications := notifications st ++ [n];
     nextId := nextId st |}.

(** [Sponsor.findByIdAndDelete(id)] *)
Definition findByIdAndDelete (id : ObjectId) (st : Store)
  : option Sponsor * Store :=
  (sponsors st !! id,
   {| sponsors := delete id (sponsors st);
      notifications := notifications st;
      nextId := nextId st |}).

(** What a handler reads of a request: the route parameters are
    arguments of the handlers below; [body] is [req.body] after multer
    (text fields only), [file] is [req.file.filename] when a file came
    with the request, and [date k] is the value of the [k]-th
    [new Date()] evaluated while the request is handled.  By then
    multer has stored the file under a name it makes from the clock
    ([Date.now()] and the extension), so the same file sent twice
    comes as two different [file]s. *)
Record Req := mkReq {
  body : gmap string string;
  file : option string;
  date : nat → Z
}.

Inductive Body :=
| Message (m : string)
| MessageError (m e : string)
| MessageSponsor (m : string) (s : Sponsor)
| MessagePost (m : string) (p : Post)
| Posts (l : list Post).

(** What the handler does with [res].  [RedirectTo status url] is the
    call [res.redirect(url)], answered with [status]; express writes the
    [Location] header from [url] (it percent-encodes what a header
    cannot carry, and express 4 reads the url [back] as the referrer).
    [Unhandled] is a handler whose promise rejects outside any
    [try]/[catch]: no response is written. *)
Inductive Response :=
| Json (status : nat) (b : Body)
| RedirectTo (status : nat) (url : string)
| Unhandled.

(** JavaScript truthiness of a value that is a string or [undefined]. *)
Definition truthy (v : option string) : bool :=
  match v with
  | Some s => negb (String.eqb s "")
  | None => false
  end.

(** [v || d] on numbers *)
Definition num_or (v d : Z) : Z := if Z.eqb v 0 then d else v.

(** A template literal prints a missing value as [undefined]. *)
Definition show (v : option string) : string := default "undefined" v.

Definition upload_url (filename : string) : string :=
  "http://localhost:3000/uploads/" ++ filename.

(** POST /register *)
Definition register (req : Req) (st : Store) : Response * Store :=
  let companyName := body req !! "companyName" in
  let objectives := body req !! "objectives" in
  let logo := upload_url <$> file req in
  let '(id, st1) := fresh_id st in
  let newSponsor :=
    {| s_id := id; companyName := companyName; logo := logo;
       objectives := objectives; posts := []; postCount := 0 |} in
  match save newSponsor st1 with
  | Some st2 =>
      (Json 201 (MessageSponsor "Sponsor registered successfully" newSponsor),
       st2)
  | None => (Json 500 (Message "Internal server error"), st1)
  end.

(** PUT /:id/post *)
Definition add_post (id : ObjectId) (req : Req) (st : Store)
  : Response * Store :=
  let caption := body req !! "caption" in
  let jobLink := body req !! "jobLink" in
  let media := upload_url <$> file req in
  match findById id st with
  | None => (Json 404 (Message "Sponsor not found"), st)
  | Some sponsor =>
      let post :=
        {| o_id := None; o_media := media; o_caption := caption;
           o_jobLink := jobLink; o_views := Some 0; o_clicks := None;
           o_createdAt := Some (date req 0) |} in
      (* sponsor.posts.push(post): the array casts its argument *)
      let '(pid, st1) := fresh_id st in
      let sponsor1 :=
        set_posts (posts sponsor ++ [cast_post pid (date req 0) post])
          sponsor in
      let sponsor2 :=
        set_postCount (Z.of_nat (length (posts sponsor1))) sponsor1 in
      match save sponsor2 st1 with
      | None => (Json 500 (Message "Failed to add post"), st1)
      | Some st2 =>
          let st3 :=
            Notification_create
              {| n_type := "sponsor";
                 n_title := "New Sponsorship Alert";
                 n_content :=
                   show (companyName sponsor2) ++
                   " just posted a new sponsorship opportunity.";
                 sponsorId := Some (s_id sponsor2);
                 postId := o_id post;
                 n_createdAt := date req 1;
                 forAll := true |} st2 in
          (Json 200 (MessageSponsor "Post added and notification sent"
                       sponsor2), st3)
      end
  end.

(** GET /:id/posts *)
Definition get_posts (id : ObjectId) (st : Store) : Response * Store :=
  match findById id st with
  | None => (Json 404 (Message "Sponsor not found"), st)
  | Some sponsor => (Json 200 (Posts (posts sponsor)), st)
  end.

(** PUT /:sponsorId/posts/:postId *)
Definition update_post (sid pid : ObjectId) (req : Req) (st : Store)
  : Response * Store :=
  match findById sid st with
  | None => (Json 404 (Message "Sponsor not found"), st)
  | Some sponsor =>
      match posts_id (posts sponsor) pid with
      | None => (Json 404 (Message "Post not found"), st)
      | Some (i, post) =>
          let post1 :=
            if truthy (body req !! "caption")
            then set_caption (body req !! "caption") post else post in
          let post2 :=
            if truthy (body req !! "jobLink")
            then set_jobLink (body req !! "jobLink") post1 else post1 in
          let post3 :=
            match file req with
            | Some f => set_media (Some (upload_url f)) post2
            | None => post2
            end in
          let sponsor1 := set_posts (<[i := post3]> (posts sponsor)) sponsor in
          match save sponsor1 st with
          | Some st1 => (Json 200 (MessagePost "Post updated" post3), st1)
          | None => (Json 500 (Message "Failed to update post."), st)
          end
      end
  end.

(** DELETE /:sponsorId/posts/:postId *)
Definition delete_post (sid pid : ObjectId) (st : Store) : Response * Store :=
  match findById sid st with
  | None => (Json 404 (Message "Sponsor not found"), st)
  | Some sponsor =>
      match posts_id (posts sponsor) pid with
      | None => (Json 404 (Message "Post not found"), st)
      | Some (postIndex, _) =>
          (* sponsor.posts.splice(postIndex, 1) *)
          let sponsor1 := set_posts (delete postIndex (posts sponsor)) sponsor in
          let sponsor2 :=
            set_postCount (Z.of_nat (length (posts sponsor1))) sponsor1 in
          match save sponsor2 st with
          | Some st1 =>
              (Json 200 (Message "✅ Post deleted successfully"), st1)
          | None =>
              (Json 500 (MessageError "Failed to delete post"
                           "Sponsor validation failed"), st)
          end
      end
  end.

(** GET /:sponsorId/posts/:postId/view *)
Definition register_view (sid pid : ObjectId) (st : Store)
  : Response * Store :=
  match findById sid st with
  | None => (Json 404 (Message "Sponsor not found"), st)
  | Some sponsor =>
      match posts_id (posts sponsor) pid with
      | None => (Json 404 (Message "Post not found"), st)
      | Some (i, post) =>
          let post1 := set_views (num_or (views post) 0 + 1) post in
          let sponsor1 := set_posts (<[i := post1]> (posts sponsor)) sponsor in
          match save sponsor1 st with
          | Some st1 => (Json 200 (Message "View counted"), st1)
          | None => (Unhandled, st)
          end
      end
  end.

(** GET /redirect/:sponsorId/:postId *)
Definition redirect (sid pid : ObjectId) (st : Store) : Response * Store :=
  match findById sid st with
  | None => (Json 404 (Message "Sponsor not found"), st)
  | Some sponsor =>
      match posts_id (posts sponsor) pid with
      | None => (Json 404 (Message "Post not found"), st)
      | Some (i, post) =>
          let post1 := set_clicks (num_or (clicks post) 0 + 1) post in
          let sponsor1 := set_posts (<[i := post1]> (posts sponsor)) sponsor in
          match save sponsor1 st with
          | Some st1 =>
              (* res.redirect(post.jobLink || "/") *)
              (RedirectTo 302
                 (if truthy (jobLink post1) then show (jobLink post1) else "/"),
               st1)
          | None => (Unhandled, st)
          end
      end
  end.

(** DELETE /:id *)
Definition delete_sponsor (id : ObjectId) (st : Store) : Response * Store :=
  match findByIdAndDelete id st with
  | (None, st1) => (Json 404 (Message "Sponsor not found"), st1)
  | (Some _, st1) => (Json 200 (Message "Sponsor deleted successfully"), st1)
  end.

(** The requests the router serves, and their dispatch. *)
Inductive Request :=
| PostRegister (req : Req)
| PutPost (id : ObjectId) (req : Req)
| GetPosts (id : ObjectId)
| PutSponsorPost (sponsorId postId : ObjectId) (req : Req)
| DeleteSponsorPost (sponsorId postId : ObjectId)
| GetView (sponsorId postId : ObjectId)
| GetRedirect (sponsorId postId : ObjectId)
| DeleteSponsor (id : ObjectId).

Definition handle (r : Request) (st : Store) : Response * Store :=
  match r with
  | PostRegister req => register req st
  | PutPost id req => add_post id req st
  | GetPosts id => get_posts id st
  | PutSponsorPost sid pid req => update_post sid pid req st
  | DeleteSponsorPost sid pid => delete_post sid pid st
  | GetView sid pid => register_view sid pid st
  | GetRedirect sid pid => redirect sid pid st
  | DeleteSponsor id => delete_sponsor id st
  end.

(** The store after a sequence of requests, served one after the other. *)
Fixpoint run (trace : list Request) (st : Store) : Store :=
  match trace with
  | [] => st
  | r :: trace' => run trace' (handle r st).2
  end.

(** The stores the service can be in. *)
Definition reachable (st : Store) : Prop :=
  ∃ trace, st = run trace empty_store.

End Routes.
Export Routes.

(** ** routes/upload.js *)
Module Upload.

Abbreviation Buffer := (list Byte.byte) (only parsing).

(** What sharp decodes from a buffer. *)
Record Image := mkImage {
  width : N;
  height : N;
  format : string
}.

(** The content of a local file: raw bytes, a JPEG written by sharp or
    an MP4 written by ffmpeg, each described by the parameters it was
    written with. *)
Inductive FileData :=
| Bytes (b : Buffer)
| Jpeg (img : Image) (quality : N)
| Mp4 (crf : N) (source : Buffer).

(** Calls that leave the process, in the order they are made. *)
Inductive Event :=
| WriteFile (path : string)
| Unlink (path : string)
| Sharp (outputPath : string)
| Ffmpeg (input outputPath : string)
| Cloudinary (filePath folder : string)
| ConsoleError (err : string).

Record World := mkWorld {
  fs : gmap string FileData;
  log : list Event;
  ticks : nat
}.

Inductive FfmpegOutcome :=
| FfEnd
| FfError (err : string).

(** The collaborators of the pipeline: the clock ([now k] is the value
    of the [k]-th [Date.now()]), the decoder of sharp ([inl] is the text
    of the error with which sharp rejects the buffer, [inr] the image it
    reads), the run of ffmpeg on an input, and the answer of
    the remote media store to an upload ([inl] is the message of its
    error, [inr] its [secure_url] and [public_id]). *)
Record Env := mkEnv {
  now : nat → N;
  sharp_decode : Buffer → string + Image;
  ffmpeg : Buffer → FfmpegOutcome;
  cloudinary_upload : string → FileData → string + string * string
}.

(** *** A state and exception monad over the world *)
Inductive Outcome (A : Type) :=
| Ok (a : A)
| Throw (err : string).
Arguments Ok {A} a.
Arguments Throw {A} err.

Definition M (A : Type) : Type := World → Outcome A * World.

Definition ret {A} (a : A) : M A := λ w, (Ok a, w).
Definition throw {A} (err : string) : M A := λ w, (Throw err, w).
Definition bind {A B} (m : M A) (k : A → M B) : M B :=
  λ w, match m w with
       | (Ok a, w1) => k a w1
       | (Throw err, w1) => (Throw err, w1)
       end.

#[export] Instance M_ret : MRet M := @ret.
#[export] Instance M_bind : MBind M := λ A B k m, bind m k.

Definition emit (e : Event) : M unit :=
  λ w, (Ok tt, {| fs := fs w; log := log w ++ [e]; ticks := ticks w |}).

(** [Date.now()] *)
Definition Date_now (env : Env) : M N :=
  λ w, (Ok (now env (ticks w)),
        {| fs := fs w; log := log w; ticks := S (ticks w) |}).

(** [fs.writeFileSync(path, data)], on a disk that takes the file: the
    directory is there (the module makes it when it is loaded) and the
    name and the data are within what the file system allows. *)
Definition writeFileSync (path : string) (data : FileData) : M unit :=
  λ w, (Ok tt, {| fs := <[path := data]> (fs w);
                  log := log w ++ [WriteFile path];
                  ticks := ticks w |}).

(** [fs.unlinkSync(path)]: throws when there is no such file *)
Definition unlinkSync (path : string) : M unit :=
  λ w, match fs w !! path with
       | Some _ => (Ok tt, {| fs := delete path (fs w);
                              log := log w ++ [Unlink path];
                              ticks := ticks w |})
       | None => (Throw ("ENOENT: no such file or directory, unlink " ++ path), w)
       end.

(** *** Strings *)
Definition is_alnum (c : ascii) : bool :=
  let n := N_of_ascii c in
  ((48 <=? n) && (n <=? 57) || (65 <=? n) && (n <=? 90)
   || (97 <=? n) && (n <=? 122))%N.

(** A string is the sequence of its code units, each below 256: multer
    decodes the name of a file as Latin-1.  The capital letters there
    are A to Z and, from 192 to 222, those with a diacritic, without the
    multiplication sign 215; each has its small letter 32 further. *)
Definition lower (c : ascii) : ascii :=
  let n := N_of_ascii c in
  if ((65 <=? n) && (n <=? 90)
      || (192 <=? n) && (n <=? 222) && negb (n =? 215))%N
  then ascii_of_N (n + 32) else c.

Fixpoint map_chars (f : ascii → ascii) (s : string) : string :=
  match s with
  | EmptyString => EmptyString
  | String c s' => String (f c) (map_chars f s')
  end.

(** [s.toLowerCase()] *)
Definition toLowerCase (s : string) : string := map_chars lower s.

(** [s.replace(/[^a-z0-9]/gi, "_")] *)
Definition replace_non_alnum (s : string) : string :=
  map_chars (λ c, if is_alnum c then c else "_"%char) s.

(** The last component of a path that does not end with a slash. *)
Fixpoint last_component (s : string) : string :=
  match s with
  | EmptyString => EmptyString
  | String c s' =>
      if existsb (Ascii.eqb "/") (list_ascii_of_string s')
      then last_component s'
      else if Ascii.eqb c "/" then s' else s
  end.

(** The suffix of [s] that starts at its last dot, if it has a dot. *)
Fixpoint from_last_dot (s : string) : option string :=
  match s with
  | EmptyString => None
  | String c s' =>
      match from_last_dot s' with
      | Some e => Some e
      | None => if Ascii.eqb c "." then Some s else None
      end
  end.

(** [path.extname(p)] *)
Definition extname (p : string) : string :=
  let name := last_component p in
  match name with
  | EmptyString => ""
  | String _ rest =>
      if String.eqb name ".." then ""
      else default "" (from_last_dot rest)
  end.

(** [s] without its last [n] characters *)
Definition drop_end (n : nat) (s : string) : string :=
  substring 0 (String.length s - n) s.

Definition ends_with (suffix s : string) : bool :=
  String.eqb (substring (String.length s - String.length suffix)
                (String.length suffix) s) suffix
  && (String.length suffix <=? String.length s)%nat.

(** [path.basename(p, ext)] *)
Definition basename (p ext : string) : string :=
  if String.eqb ext p then ""
  else
    let name := last_component p in
    if negb (String.eqb ext "") && ends_with ext name
       && negb (String.eqb ext name)
    then drop_end (String.length ext) name
    else name.

Definition UPLOAD_DIR : string := "uploads/".

(** [path.join(UPLOAD_DIR, name)], for a [name] that is a file name *)
Definition path_join (dir name : string) : string := dir ++ name.

(** *** The compression stage *)

(** [sharp(buffer).resize({ width: w })]: the width becomes [w] and the
    height follows in proportion, rounded, and is at least 1. *)
Definition resize (w : N) (img : Image) : Image :=
  {| width := w;
     height := N.max 1 ((2 * height img * w + width img) / (2 * width img));
     format := format img |}.

(** [.jpeg({ quality: q })] *)
Definition jpeg (q : N) (img : Image) : FileData :=
  Jpeg {| width := width img; height := height img; format := "jpeg" |} q.

Definition compressImage (env : Env) (buffer : Buffer) (outputPath : string)
  : M unit :=
  emit (Sharp outputPath);;
  match sharp_decode env buffer with
  | inl err => throw err
  | inr img => writeFileSync outputPath (jpeg 60 (resize 600 img))
  end.

Definition compressVideo (env : Env) (inputBuffer : Buffer)
    (outputPath : string) : M unit :=
  t ← Date_now env;
  let tempInputPath :=
    path_join UPLOAD_DIR ("input-" ++ pretty t ++ ".mp4") in
  writeFileSync tempInputPath (Bytes inputBuffer);;
  emit (Ffmpeg tempInputPath outputPath);;
  match ffmpeg env inputBuffer with
  | FfEnd =>
      writeFileSync outputPath (Mp4 28 inputBuffer);;
      unlinkSync tempInputPath;;
      ret tt
  | FfError err =>
      unlinkSync tempInputPath;;
      throw err
  end.

(** *** The pipeline *)
Record File := mkFile {
  originalname : string;
  mimetype : string;
  buffer : Buffer
}.

Record UploadedFile := mkUploadedFile {
  name : string;
  url : string;
  public_id : string;
  type : string
}.

(** [s.startsWith(p)] *)
Definition startsWith (s p : string) : bool := String.prefix p s.

(** The first half of the loop body: the output path is chosen and the
    file is compressed into it; the result is the path and the resolved
    type. *)
Definition compress (env : Env) (file : File) : M (string * string) :=
  let originalExt := toLowerCase (extname (originalname file)) in
  let base := basename (originalname file) originalExt in
  let safeName := toLowerCase (replace_non_alnum base) in
  timestamp ← Date_now env;
  let mime := mimetype file in
  let outputName :=
    "compressed-" ++ safeName ++ "-" ++ pretty timestamp ++ originalExt in
  let outputPath := path_join UPLOAD_DIR outputName in
  if startsWith mime "image/" then
    let outputExt := ".jpg" in
    let outputName :=
      "compressed-" ++ safeName ++ "-" ++ pretty timestamp ++ outputExt in
    let outputPath := path_join UPLOAD_DIR outputName in
    compressImage env (buffer file) outputPath;;
    ret (outputPath, "image/jpeg")
  else if startsWith mime "video/" then
    let outputExt := ".mp4" in
    let outputName :=
      "compressed-" ++ safeName ++ "-" ++ pretty timestamp ++ outputExt in
    let outputPath := path_join UPLOAD_DIR outputName in
    compressVideo env (buffer file) outputPath;;
    ret (outputPath, "video/mp4")
  else
    writeFileSync outputPath (Bytes (buffer file));;
    ret (outputPath, mime).

(** [uploadToCloudinary(filePath, folder)] of [utils/cloudinary.js] *)
Definition uploadToCloudinary (env : Env) (filePath folder : string)
  : M (string * string) :=
  emit (Cloudinary filePath folder);;
  (λ w, match fs w !! filePath with
       | None => (Throw "Cloudinary Upload Failed: no such file", w)
       | Some data =>
           match cloudinary_upload env filePath data with
           | inl message =>
               (Throw ("Cloudinary Upload Failed: " ++ message), w)
           | inr (secure_url, id) => (Ok (secure_url, id), w)
           end
       end) : M (string * string).

(** The loop body. *)
Definition process_file (env : Env) (file : File) : M UploadedFile :=
  '(outputPath, mime) ← compress env file;
  result ← uploadToCloudinary env outputPath "uploads";
  unlinkSync outputPath;;
  ret {| name := originalname file; url := result.1;
         public_id := result.2; type := mime |}.

(** [for (const file of req.files) { ... uploadedFiles.push(...) }] *)
Fixpoint for_files (env : Env) (files : list File)
    (uploadedFiles : list UploadedFile) : M (list UploadedFile) :=
  match files with
  | [] => ret uploadedFiles
  | file :: rest =>
      r ← process_file env file;
      for_files env rest (uploadedFiles ++ [r])
  end.

Inductive Response :=
| Success (status : nat) (files : list UploadedFile)
| Failure (status : nat) (message : string) (error : option string).

(** POST / : [files] is [req.files], absent when the request carried no
    multipart form. *)
Definition post_upload (env : Env) (files : option (list File))
  : World → Response * World :=
  match files with
  | None | Some [] => λ w, (Failure 400 "No files uploaded" None, w)
  | Some l =>
      λ w, match for_files env l [] w with
           | (Ok uploadedFiles, w1) => (Success 200 uploadedFiles, w1)
           | (Throw err, w1) =>
               (Failure 500 "Upload failed" (Some err),
                (emit (ConsoleError err) w1).2)
           end
  end.

End Upload.

(** ** Invariants of the store *)
Module Invariant.

(** What every stored sponsor satisfies: it is stored under its own
    [_id], it passes the validation of its schema, its [postCount] is
    the length of its [posts], and its posts carry distinct identifiers
    that the generator has already given out. *)
Record wf_sponsor (bound : nat) (k : nat) (s : Sponsor) : Prop := {
  wf_key : s_id s = k;
  wf_valid : validate s = true;
  wf_count : postCount s = Z.of_nat (length (posts s));
  wf_nodup : NoDup (p_id <$> posts s);
  wf_bound : Forall (λ p, p_id p < bound)%nat (posts s)
}.

Definition wf_store (st : Store) : Prop :=
  map_Forall (wf_sponsor (nextId st)) (sponsors st).

(** Two posts that differ at most in [caption], [jobLink] and [media]. *)
Definition same_counters (p q : Post) : Prop :=
  p_id p = p_id q ∧ views p = views q ∧ clicks p = clicks q
  ∧ createdAt p = createdAt q.

#[export] Instance Post_eq_dec : EqDecision Post.
Proof. solve_decision. Defined.

(** [q] is [p] but for its counters, which are [v] views and [c]
    clicks. *)
Definition post_with_counters (v c : Z) (p q : Post) : Prop :=
  p_id q = p_id p ∧ media q = media p ∧ caption q = caption p
  ∧ jobLink q = jobLink p ∧ createdAt q = createdAt p
  ∧ views q = v ∧ clicks q = c.

(** [s'] is [s] but for its posts. *)
Definition same_but_posts (s s' : Sponsor) : Prop :=
  s_id s' = s_id s ∧ companyName s' = companyName s ∧ logo s' = logo s
  ∧ objectives s' = objectives s ∧ postCount s' = postCount s.

(** The update the specification describes: a field of the request
    that is present replaces the field of the post, one that is absent
    leaves it. *)
Definition present_field (requested old : option string) : option string :=
  match requested with
  | Some v => Some v
  | None => old
  end.

Definition update_applies_present_fields : Prop :=
  ∀ (trace : list Request) (sid pid : nat) (req : Req) (sponsor : Sponsor)
    (i : nat) (post post' : Post) (m : string) (st' : Store),
    let st := run trace empty_store in
    sponsors st !! sid = Some sponsor →
    posts_id (posts sponsor) pid = Some (i, post) →
    update_post sid pid req st = (Json 200 (MessagePost m post'), st') →
    caption post' = present_field (body req !! "caption") (caption post)
    ∧ jobLink post' = present_field (body req !! "jobLink") (jobLink post)
    ∧ media post' = present_field (upload_url <$> file req) (media post).

(** A store with one sponsor and one post, and requests on it. *)
Definition no_date : nat → Z := λ _, 0.

Definition acme_trace : list Request :=
  [ PostRegister {| body := {[ "companyName" := "Acme" ]}; file := None;
                    date := no_date |};
    PutPost 0 {| body := {[ "caption" := "Hiring";
                            "jobLink" := "https://x.test" ]};
                 file := None; date := no_date |} ].

Definition acme_store : Store := run acme_trace empty_store.

Definition acme_post : Post :=
  {| p_id := 1; media := None; caption := Some "Hiring";
     jobLink := Some "https://x.test"; views := 0; clicks := 0;
     createdAt := 0 |}.

Definition acme : Sponsor :=
  {| s_id := 0; companyName := Some "Acme"; logo := None;
     objectives := None; posts := [acme_post]; postCount := 1 |}.

Definition empty_caption : Req :=
  {| body := {[ "caption" := "" ]}; file := None; date := no_date |}.

End Invariant.
Export Invariant.

(** ** A sample environment of the pipeline *)
Module Sample.
Import Upload.

(** A clock that starts at 1700, a decoder that rejects the empty
    buffer, as sharp does, and reads anything else as a 1200x800 PNG, an
    encoder that
    fails on the empty buffer, and a media store that accepts
    everything. *)
Definition env0 : Env :=
  {| now := λ k, (1700 + N.of_nat k)%N;
     sharp_decode := λ b,
       match b with
       | [] => inl "Input Buffer is empty"
       | _ => inr {| width := 1200; height := 800; format := "png" |}
       end;
     ffmpeg := λ b,
       match b with
       | [] => FfError "Invalid data found when processing input"
       | _ => FfEnd
       end;
     cloudinary_upload := λ p _, inr ("https://res.test/" ++ p, p) |}.

Definition w0 : World := {| fs := ∅; log := []; ticks := 0 |}.

Definition photo : File :=
  {| originalname := "Photo.PNG"; mimetype := "image/png";
     buffer := [Byte.x89; Byte.x50] |}.



End Sample.

(** ** The effect of a request on the store *)
Module Effect.

(** How one request changes the posts of the sponsor it writes: it
    pushes a post with a fresh identifier and null counters, it sets the
    post at an index to one with the same identifier and counters that
    are not smaller, or it splices one post out. *)
Inductive posts_step (fresh : nat) (l : list Post) : list Post → Prop :=
| step_push (p : Post) :
    p_id p = fresh → views p = 0 → clicks p = 0 →
    posts_step fresh l (l ++ [p])
| step_set (i : nat) (p q : Post) :
    l !! i = Some p → p_id q = p_id p →
    (views p ≤ views q)%Z → (clicks p ≤ clicks q)%Z →
    posts_step fresh l (<[i := q]> l)
| step_splice (i : nat) :
    posts_step fresh l (delete i l).

(** How one request changes the collection of sponsors: not at all, by
    a new sponsor without posts under a fresh identifier, by writing a
    stored sponsor back with its posts changed as above, or by dropping
    one. *)
Inductive store_step (st st' : Store) : Prop :=
| step_none :
    sponsors st' = sponsors st → store_step st st'
| step_new (s : Sponsor) :
    s_id s = nextId st → posts s = [] → (nextId st < nextId st')%nat →
    sponsors st' = <[nextId st := s]> (sponsors st) →
    store_step st st'
| step_write (k : nat) (s s' : Sponsor) :
    sponsors st !! k = Some s →
    posts_step (nextId st) (posts s) (posts s') →
    sponsors st' = <[k := s']> (sponsors st) →
    store_step st st'
| step_drop (k : nat) :
    sponsors st' = delete k (sponsors st) → store_step st st'.

(** Identifiers are given out once: a sponsor's key is below the
    generator, two sponsors share no post identifier, and no post
    identifier is the key of a sponsor.  Counters are not negative. *)
Record unique_ids (st : Store) : Prop := {
  ui_keys : ∀ k s, sponsors st !! k = Some s → (k < nextId st)%nat;
  ui_posts : ∀ k1 k2 s1 s2 p1 p2,
    sponsors st !! k1 = Some s1 → sponsors st !! k2 = Some s2 →
    p1 ∈ posts s1 → p2 ∈ posts s2 → p_id p1 = p_id p2 → k1 = k2;
  ui_apart : ∀ k s p,
    sponsors st !! k = Some s → p ∈ posts s → sponsors st !! p_id p = None;
  ui_counters : ∀ k s p,
    sponsors st !! k = Some s → p ∈ posts s → (0 ≤ views p)%Z ∧ (0 ≤ clicks p)%Z
}.

(** The post after the three assignments of the update handler. *)
Definition updated (req : Req) (post : Post) : Post :=
  let post1 :=
    if truthy (body req !! "caption")
    then set_caption (body req !! "caption") post else post in
  let post2 :=
    if truthy (body req !! "jobLink")
    then set_jobLink (body req !! "jobLink") post1 else post1 in
  match file req with
  | Some f => set_media (Some (upload_url f)) post2
  | None => post2
  end.

End Effect.
Export Effect.

(** ** Names the pipeline gives to files *)
Module Names.
Import Upload.

(** [safeName], as the loop body computes it from [file.originalname]. *)
Definition safeName (file : File) : string :=
  let originalExt := toLowerCase (extname (originalname file)) in
  toLowerCase (replace_non_alnum (basename (originalname file) originalExt)).

(** [outputPath] for a timestamp read when the clock has been read
    [ticks w] times, with the extension the branch has chosen. *)
Definition output_path (env : Env) (file : File) (w : World)
    (outputExt : string) : string :=
  path_join UPLOAD_DIR
    ("compressed-" ++ safeName file ++ "-" ++ pretty (now env (ticks w))
       ++ outputExt).

(** [tempInputPath] of [compressVideo], called right after that. *)
Definition temp_path (env : Env) (w : World) : string :=
  path_join UPLOAD_DIR ("input-" ++ pretty (now env (S (ticks w))) ++ ".mp4").

(** The characters [safeName] is made of: digits, small letters and the
    underscore. *)
Definition is_safe_char (c : ascii) : bool :=
  let n := N_of_ascii c in
  ((48 <=? n) && (n <=? 57) || (97 <=? n) && (n <=? 122) || (n =? 95))%N.

(** A media store that is down, with the sample decoder and encoder. *)
Definition env_down : Env :=
  {| now := now Sample.env0; sharp_decode := sharp_decode Sample.env0;
     ffmpeg := ffmpeg Sample.env0;
     cloudinary_upload := λ _ _, inl "503 Service Unavailable" |}.

Definition clip : File :=
  {| originalname := "clip.mov"; mimetype := "video/quicktime";
     buffer := [Byte.x01] |}.

Definition notes : File :=
  {| originalname := "My Notes.TXT"; mimetype := "text/plain";
     buffer := [Byte.x68; Byte.x69] |}.

Definition broken_clip : File :=
  {| originalname := "clip.mp4"; mimetype := "video/mp4"; buffer := [] |}.

End Names.

(** * Properties of the sponsor routes *)
Section store_invariant.

Lemma wf_sponsor_mono (b b' k : nat) (s : Sponsor) :
  (b ≤ b')%nat → wf_sponsor b k s → wf_sponsor b' k s.
Proof.
  intros Hb [Hk Hv Hc Hn Hf]. split; try done.
  eapply Forall_impl; [exact Hf|]. simpl. lia.
Qed.

Lemma wf_empty_store : wf_store empty_store.
Proof. apply map_Forall_empty. Qed.

(** A valid document that is well formed under its own [_id] can be saved. *)
Lemma save_wf (s : Sponsor) (st : Store) :
  wf_store st → wf_sponsor (nextId st) (s_id s) s →
  ∃ st', save s st = Some st' ∧ wf_store st'
         ∧ sponsors st' = <[s_id s := s]> (sponsors st)
         ∧ notifications st' = notifications st ∧ nextId st' = nextId st.
Proof.
  intros Hst Hs. unfold save. rewrite (wf_valid _ _ _ Hs).
  eexists. split; [done|]. split_and!; try done.
  unfold wf_store; simpl. by apply map_Forall_insert_2.
Qed.

Lemma wf_fresh_id (st : Store) : wf_store st → wf_store (fresh_id st).2.
Proof.
  unfold wf_store; simpl. intros Hst k s Hk.
  eapply wf_sponsor_mono; [|by apply Hst]. lia.
Qed.

(** Replacing the post at [i] by one with the same [_id]. *)
Lemma wf_replace_post (b k i : nat) (s : Sponsor) (p q : Post) :
  wf_sponsor b k s → posts s !! i = Some p → p_id q = p_id p →
  wf_sponsor b (s_id s) (set_posts (<[i := q]> (posts s)) s).
Proof.
  intros [Hk Hv Hc Hn Hf] Hi Hq. split; simpl; try done.
  - by rewrite length_insert.
  - rewrite list_fmap_insert, Hq, list_insert_id; [done|].
    by rewrite list_lookup_fmap, Hi.
  - apply Forall_insert; [done|]. rewrite Hq.
    by eapply (proj1 (Forall_lookup _ _) Hf).
Qed.

Lemma posts_id_Some (l : list Post) (pid i : nat) (p : Post) :
  posts_id l pid = Some (i, p) → l !! i = Some p ∧ p_id p = pid.
Proof. unfold posts_id. by intros (Hi & Hp & _)%list_find_Some. Qed.

Lemma posts_id_None (l : list Post) (pid : nat) :
  posts_id l pid = None ↔ pid ∉ p_id <$> l.
Proof.
  unfold posts_id. rewrite list_find_None, Forall_forall, list_elem_of_fmap.
  split.
  - intros H (p & -> & Hp). by apply (H p).
  - intros H p Hp Hpid. apply H. by exists p.
Qed.

(** With distinct identifiers, [posts.id] finds the very post asked for. *)
Lemma posts_id_elem_of (l : list Post) (p : Post) :
  NoDup (p_id <$> l) → p ∈ l →
  ∃ i, posts_id l (p_id p) = Some (i, p) ∧ l !! i = Some p.
Proof.
  intros Hn Hp.
  destruct (list_find_elem_of (λ q, p_id q = p_id p) l p Hp eq_refl)
    as [[i q] Hfind].
  destruct (posts_id_Some _ _ _ _ Hfind) as [Hi Hq].
  apply list_elem_of_lookup in Hp as [j Hj].
  assert (i = j) as ->.
  { eapply NoDup_lookup; [exact Hn|..]; rewrite list_lookup_fmap.
    - by rewrite Hi.
    - by rewrite Hj, Hq. }
  exists j. unfold posts_id. rewrite Hfind. split; congruence.
Qed.

Lemma wf_register (req : Req) (st : Store) :
  wf_store st → wf_store (register req st).2.
Proof.
  intros Hst. unfold register. simpl.
  destruct (save _ _) as [st2|] eqn:Hsave; simpl.
  - unfold save in Hsave. destruct (validate _) eqn:Hv; [|done].
    simplify_eq. unfold wf_store; simpl.
    apply map_Forall_insert_2.
    + split; simpl; try done; constructor.
    + by apply (wf_fresh_id st).
  - by apply (wf_fresh_id st).
Qed.

Lemma wf_add_post (id : nat) (req : Req) (st : Store) :
  wf_store st → wf_store (add_post id req st).2.
Proof.
  intros Hst. unfold add_post, findById.
  destruct (sponsors st !! id) as [s|] eqn:Hs; [|done]. simpl.
  pose proof (Hst _ _ Hs) as [Hk Hv Hc Hn Hf].
  edestruct (save_wf
    (set_postCount (Z.of_nat (length (posts s ++ [cast_post (nextId st)
       (date req 0) (mkPostObject None (upload_url <$> file req)
         (body req !! "caption") (body req !! "jobLink") (Some 0) None
         (Some (date req 0)))])))
       (set_posts (posts s ++ [cast_post (nextId st) (date req 0)
         (mkPostObject None (upload_url <$> file req)
         (body req !! "caption") (body req !! "jobLink") (Some 0) None
         (Some (date req 0)))]) s))
    (fresh_id st).2) as (st2 & Hsave & Hwf & _).
  - by apply wf_fresh_id.
  - split; simpl; try done.
    + rewrite fmap_app. apply NoDup_app. split_and!; [done| |].
      * intros x Hx Hx'. apply list_elem_of_fmap in Hx as (p & -> & Hp).
        apply (proj1 (Forall_forall _ _) Hf) in Hp.
        simpl in Hx'. apply list_elem_of_singleton in Hx'. lia.
      * simpl. apply NoDup_singleton.
    + apply Forall_app. split.
      * eapply Forall_impl; [exact Hf|]. simpl. lia.
      * repeat constructor; simpl; lia.
  - simpl in Hsave. rewrite Hsave. simpl. exact Hwf.
Qed.

Lemma wf_update_post (sid pid : nat) (req : Req) (st : Store) :
  wf_store st → wf_store (update_post sid pid req st).2.
Proof.
  intros Hst. unfold update_post, findById.
  destruct (sponsors st !! sid) as [s|] eqn:Hs; [|done].
  destruct (posts_id (posts s) pid) as [[i p]|] eqn:Hp; [|done].
  apply posts_id_Some in Hp as [Hi _].
  match goal with |- context [save ?s' st] =>
    destruct (save_wf s' st Hst) as (st1 & -> & Hwf & _); [|done] end.
  apply (wf_replace_post _ sid i s p); [by apply Hst|exact Hi|].
  by repeat case_match.
Qed.

Lemma wf_delete_post (sid pid : nat) (st : Store) :
  wf_store st → wf_store (delete_post sid pid st).2.
Proof.
  intros Hst. unfold delete_post, findById.
  destruct (sponsors st !! sid) as [s|] eqn:Hs; [|done].
  destruct (posts_id (posts s) pid) as [[i p]|] eqn:Hp; [|done].
  pose proof (Hst _ _ Hs) as [Hk Hv Hc Hn Hf].
  match goal with |- context [save ?s' st] =>
    destruct (save_wf s' st Hst) as (st1 & -> & Hwf & _); [|done] end.
  split; simpl; try done.
  - rewrite list_fmap_delete.
    eapply sublist_NoDup; [exact Hn|]. apply sublist_delete.
  - by apply Forall_delete.
Qed.

Lemma wf_register_view (sid pid : nat) (st : Store) :
  wf_store st → wf_store (register_view sid pid st).2.
Proof.
  intros Hst. unfold register_view, findById.
  destruct (sponsors st !! sid) as [s|] eqn:Hs; [|done].
  destruct (posts_id (posts s) pid) as [[i p]|] eqn:Hp; [|done].
  apply posts_id_Some in Hp as [Hi _].
  match goal with |- context [save ?s' st] =>
    destruct (save_wf s' st Hst) as (st1 & -> & Hwf & _); [|done] end.
  by apply (wf_replace_post _ sid i s p); [apply Hst|..].
Qed.

Lemma wf_redirect (sid pid : nat) (st : Store) :
  wf_store st → wf_store (redirect sid pid st).2.
Proof.
  intros Hst. unfold redirect, findById.
  destruct (sponsors st !! sid) as [s|] eqn:Hs; [|done].
  destruct (posts_id (posts s) pid) as [[i p]|] eqn:Hp; [|done].
  apply posts_id_Some in Hp as [Hi _].
  match goal with |- context [save ?s' st] =>
    destruct (save_wf s' st Hst) as (st1 & -> & Hwf & _); [|done] end.
  by apply (wf_replace_post _ sid i s p); [apply Hst|..].
Qed.

Lemma wf_delete_sponsor (id : nat) (st : Store) :
  wf_store st → wf_store (delete_sponsor id st).2.
Proof.
  intros Hst. unfold delete_sponsor, findByIdAndDelete.
  destruct (sponsors st !! id); simpl; by apply map_Forall_delete.
Qed.

Lemma wf_handle (r : Request) (st : Store) :
  wf_store st → wf_store (handle r st).2.
Proof.
  destruct r; simpl;
    eauto using wf_register, wf_add_post, wf_update_post, wf_delete_post,
      wf_register_view, wf_redirect, wf_delete_sponsor.
  unfold get_posts, findById. by destruct (sponsors st !! id).
Qed.

Lemma wf_run (trace : list Request) (st : Store) :
  wf_store st → wf_store (run trace st).
Proof.
  revert st. induction trace as [|r trace IH]; intros st Hst; simpl;
    [done|]. by apply IH, wf_handle.
Qed.

Lemma reachable_wf (st : Store) : reachable st → wf_store st.
Proof. intros [trace ->]. apply wf_run, wf_empty_store. Qed.

End store_invariant.

Section sponsor_routes.

Lemma num_or_succ (v : Z) : num_or v 0 + 1 = v + 1.
Proof. unfold num_or. destruct (Z.eqb_spec v 0); lia. Qed.

(** With distinct identifiers, writing the post at the index of [P] is
    mapping over the list a function that touches [P] alone. *)
Lemma insert_as_fmap (l : list Post) (i : nat) (P P' : Post) :
  NoDup (p_id <$> l) → l !! i = Some P →
  <[i := P']> l = (λ Q, if decide (Q = P) then P' else Q) <$> l.
Proof.
  intros Hn Hi. apply list_eq. intros j.
  rewrite list_lookup_insert, list_lookup_fmap.
  assert (i < length l)%nat by (by eapply lookup_lt_Some).
  case_decide as Hj.
  - destruct Hj as [<- _]. rewrite Hi. simpl. by rewrite decide_True.
  - destruct (l !! j) as [Q|] eqn:HQ; [|done]. simpl.
    case_decide as HQP; [|done]. subst Q. exfalso. apply Hj. split; [|done].
    eapply NoDup_lookup; [exact Hn|..]; rewrite list_lookup_fmap.
    + by rewrite Hi.
    + by rewrite HQ.
Qed.

Lemma same_counters_refl (l : list Post) : Forall2 same_counters l l.
Proof. induction l; constructor; [by repeat split|done]. Qed.

(** C1. In every store the service can reach, whatever the requests
    that led to it (registrations, added and deleted posts, and all
    others), the [postCount] of every sponsor is the length of its
    [posts]. *)
Theorem postCount_is_length (trace : list Request) (k : nat) (s : Sponsor) :
  sponsors (run trace empty_store) !! k = Some s →
  postCount s = Z.of_nat (length (posts s)).
Proof.
  intros Hs.
  by destruct (wf_run trace empty_store wf_empty_store _ _ Hs).
Qed.

Lemma postCount_is_length_witness :
  sponsors acme_store !! 0%nat = Some acme
  ∧ postCount acme = Z.of_nat (length (posts acme)).
Proof.
  assert (sponsors (run acme_trace empty_store) !! 0%nat = Some acme) as H
    by (by vm_compute).
  split; [exact H|]. exact (postCount_is_length acme_trace 0 acme H).
Defined.

(** The three mutations recount, whatever the store they start from:
    the document they write has [postCount] equal to the length of
    [posts]. *)
Lemma register_counts (req : Req) (st st' : Store) (m : string) (s : Sponsor) :
  register req st = (Json 201 (MessageSponsor m s), st') →
  sponsors st' !! s_id s = Some s ∧ posts s = []  ∧ postCount s = 0.
Proof.
  unfold register. simpl. destruct (save _ _) as [st2|] eqn:Hsave; [|done].
  intros [= <- <- <-]. unfold save in Hsave.
  destruct (validate _); [|done]. simplify_eq. simpl.
  by rewrite lookup_insert_eq.
Qed.

Lemma add_post_Some (id : nat) (req : Req) (st st' : Store) (m : string)
    (s' : Sponsor) :
  add_post id req st = (Json 200 (MessageSponsor m s'), st') →
  ∃ s post n,
    sponsors st !! id = Some s
    ∧ post = cast_post (nextId st) (date req 0)
               {| o_id := None; o_media := upload_url <$> file req;
                  o_caption := body req !! "caption";
                  o_jobLink := body req !! "jobLink";
                  o_views := Some 0; o_clicks := None;
                  o_createdAt := Some (date req 0) |}
    ∧ s' = set_postCount (Z.of_nat (length (posts s ++ [post])%list))
             (set_posts (posts s ++ [post])%list s)
    ∧ sponsors st' = <[s_id s := s']> (sponsors st)
    ∧ notifications st' = (notifications st ++ [n])%list
    ∧ sponsorId n = Some (s_id s)
    ∧ postId n = None
    ∧ forAll n = true.
Proof.
  unfold add_post, findById.
  destruct (sponsors st !! id) as [s|] eqn:Hs; [|done]. simpl.
  destruct (save _ _) as [st2|] eqn:Hsave; [|done].
  intros [= <- <- <-]. unfold save in Hsave.
  destruct (validate _); [|done]. simplify_eq. simpl.
  by eexists _, _, _.
Qed.

Lemma delete_post_Some (sid pid : nat) (st st' : Store) (b : Body) :
  delete_post sid pid st = (Json 200 b, st') →
  ∃ s i p,
    sponsors st !! sid = Some s ∧ posts_id (posts s) pid = Some (i, p)
    ∧ sponsors st' =
        <[s_id s := set_postCount (Z.of_nat (length (delete i (posts s))))
                      (set_posts (delete i (posts s)) s)]> (sponsors st).
Proof.
  unfold delete_post, findById.
  destruct (sponsors st !! sid) as [s|] eqn:Hs; [|done].
  destruct (posts_id _ _) as [[i p]|] eqn:Hp; [|done].
  destruct (save _ _) as [st2|] eqn:Hsave; [|done].
  intros [= <- <-]. unfold save in Hsave.
  destruct (validate _); [|done]. simplify_eq. simpl.
  by eexists _, _, _.
Qed.

(** C4. After a successful add-post the new post is the last of the
    sponsor's posts and is persisted, and one notification has been
    appended that carries the sponsor's id and the broadcast flag; its
    [postId] is read from the object literal [post], which the cast of
    [push] has not touched, and so is [undefined], not the id of the
    new post. *)
Theorem add_post_notification_postId (id : nat) (req : Req)
    (st st' : Store) (m : string) (s' : Sponsor) :
  add_post id req st = (Json 200 (MessageSponsor m s'), st') →
  ∃ post n,
    last (posts s') = Some post
    ∧ sponsors st' !! s_id s' = Some s'
    ∧ notifications st' = (notifications st ++ [n])%list
    ∧ sponsorId n = Some (s_id s')
    ∧ forAll n = true
    ∧ postId n = None
    ∧ postId n ≠ Some (p_id post).
Proof.
  intros (s & post & n & Hs & -> & -> & Hst' & Hn & Hsid & Hpid & Hall)
    %add_post_Some.
  eexists _, n. simpl. rewrite last_snoc, Hst', lookup_insert_eq, Hpid.
  by split_and!.
Qed.

Lemma add_post_notification_postId_witness :
  ∃ post n,
    last (posts acme) = Some post
    ∧ sponsors acme_store !! s_id acme = Some acme
    ∧ notifications acme_store
      = (notifications (run (take 1 acme_trace) empty_store) ++ [n])%list
    ∧ sponsorId n = Some (s_id acme)
    ∧ forAll n = true
    ∧ postId n = None
    ∧ postId n ≠ Some (p_id post).
Proof.
  apply (add_post_notification_postId 0
           (mkReq {[ "caption" := "Hiring"; "jobLink" := "https://x.test" ]}
              None no_date)
           (run (take 1 acme_trace) empty_store) acme_store
           "Post added and notification sent" acme).
  by vm_compute.
Defined.

(** What [update_post] does on a stored sponsor and one of its posts. *)
Lemma update_post_Some (sid pid i : nat) (req : Req) (st : Store)
    (sponsor : Sponsor) (post : Post) :
  wf_store st → sponsors st !! sid = Some sponsor →
  posts_id (posts sponsor) pid = Some (i, post) →
  ∃ post' st',
    update_post sid pid req st
    = (Json 200 (MessagePost "Post updated" post'), st')
    ∧ caption post' = (if truthy (body req !! "caption")
                       then body req !! "caption" else caption post)
    ∧ jobLink post' = (if truthy (body req !! "jobLink")
                       then body req !! "jobLink" else jobLink post)
    ∧ media post' = match file req with
                    | Some f => Some (upload_url f)
                    | None => media post
                    end
    ∧ same_counters post' post
    ∧ sponsors st'
      = <[sid := set_posts (<[i := post']> (posts sponsor)) sponsor]>
          (sponsors st).
Proof.
  intros Hst Hs Hp. unfold update_post, findById. rewrite Hs, Hp.
  pose proof (Hst _ _ Hs) as Hwf.
  destruct (posts_id_Some _ _ _ _ Hp) as [Hi _].
  match goal with |- context [save ?s' st] =>
    destruct (save_wf s' st Hst) as (st1 & -> & _ & Hst1 & _) end.
  { apply (wf_replace_post _ sid i sponsor post); [done..|].
    by repeat case_match. }
  simpl in Hst1. rewrite (wf_key _ _ _ Hwf) in Hst1.
  eexists _, st1. split; [done|]. split_and!; [..|exact Hst1];
    by repeat case_match.
Qed.

(** C5, as amended.  On an existing sponsor and post the update
    succeeds; [caption] and [jobLink] are overwritten when the request
    carries them with a non-empty value and [media] when a file is
    uploaded; a field that is absent, or a text field that is present
    but empty, is left as it was, and so is everything else in the
    post. *)
Theorem update_post_overwrites_nonempty (trace : list Request)
    (sid pid i : nat) (req : Req) (sponsor : Sponsor) (post : Post) :
  let st := run trace empty_store in
  sponsors st !! sid = Some sponsor →
  posts_id (posts sponsor) pid = Some (i, post) →
  ∃ post' st',
    update_post sid pid req st
    = (Json 200 (MessagePost "Post updated" post'), st')
    ∧ caption post' = (if truthy (body req !! "caption")
                       then body req !! "caption" else caption post)
    ∧ jobLink post' = (if truthy (body req !! "jobLink")
                       then body req !! "jobLink" else jobLink post)
    ∧ media post' = match file req with
                    | Some f => Some (upload_url f)
                    | None => media post
                    end
    ∧ same_counters post' post
    ∧ sponsors st'
      = <[sid := set_posts (<[i := post']> (posts sponsor)) sponsor]>
          (sponsors st).
Proof.
  intros st. apply update_post_Some, wf_run, wf_empty_store.
Qed.

Lemma update_post_overwrites_nonempty_witness :
  ∃ post' st',
    update_post 0 1 empty_caption acme_store
    = (Json 200 (MessagePost "Post updated" post'), st')
    ∧ caption post' = (if truthy (body empty_caption !! "caption")
                       then body empty_caption !! "caption"
                       else caption acme_post)
    ∧ jobLink post' = (if truthy (body empty_caption !! "jobLink")
                       then body empty_caption !! "jobLink"
                       else jobLink acme_post)
    ∧ media post' = match file empty_caption with
                    | Some f => Some (upload_url f)
                    | None => media acme_post
                    end
    ∧ same_counters post' acme_post
    ∧ sponsors st'
      = <[0%nat := set_posts (<[0%nat := post']> (posts acme)) acme]>
          (sponsors acme_store).
Proof.
  apply (update_post_overwrites_nonempty acme_trace 0 1 0 empty_caption
           acme acme_post); by vm_compute.
Defined.

(** C5, as stated, fails.  On the store with Acme and its one post, a
    request whose caption is present and empty is answered 200 with the
    post as it was: the caption is still the old one, where the claim
    wants the empty one. *)
Lemma update_post_ignores_empty_caption :
  (body empty_caption !! "caption" = Some ""
   ∧ ∃ st', update_post 0 1 empty_caption acme_store
            = (Json 200 (MessagePost "Post updated" acme_post), st')
            ∧ caption acme_post = Some "Hiring")
  ∧ ¬ update_applies_present_fields.
Proof.
  split; [split; [done|]; eexists; by vm_compute|].
  intros H.
  destruct (H acme_trace 0%nat 1%nat empty_caption acme 0%nat acme_post
              acme_post "Post updated"
              (run (acme_trace ++ [PutSponsorPost 0 1 empty_caption])
                 empty_store)) as [Hcaption _]; [by vm_compute..|].
  vm_compute in Hcaption. discriminate Hcaption.
Qed.





(** C7. Deleting, under an existing sponsor, a post id that none of
    its posts has answers 404 and leaves the store, hence the sponsor's
    [posts] and [postCount], as it was. *)
Theorem delete_post_not_found (sid pid : nat) (st : Store) (sponsor : Sponsor) :
  sponsors st !! sid = Some sponsor →
  pid ∉ p_id <$> posts sponsor →
  delete_post sid pid st = (Json 404 (Message "Post not found"), st).
Proof.
  intros Hs Hpid. unfold delete_post, findById. rewrite Hs.
  by rewrite (proj2 (posts_id_None _ _) Hpid).
Qed.

Lemma delete_post_not_found_witness :
  delete_post 0 7 acme_store = (Json 404 (Message "Post not found"), acme_store).
Proof.
  apply (delete_post_not_found 0 7 acme_store acme).
  - by vm_compute.
  - simpl. intros [=]%list_elem_of_singleton.
Defined.

(** C9. Whatever the request carries, an update-post leaves every
    sponsor of a reachable store in place with the same [postCount] and
    the same fields, and every post with the same [views], [clicks],
    [_id] and [createdAt]: posts differ at most in [caption], [jobLink]
    and [media]. *)
Theorem update_post_frame (trace : list Request) (sid pid : nat) (req : Req)
    (k : nat) (s : Sponsor) :
  let st := run trace empty_store in
  sponsors st !! k = Some s →
  ∃ s', sponsors (update_post sid pid req st).2 !! k = Some s'
        ∧ postCount s' = postCount s
        ∧ Forall2 same_counters (posts s') (posts s)
        ∧ s_id s' = s_id s ∧ companyName s' = companyName s
        ∧ logo s' = logo s ∧ objectives s' = objectives s.
Proof.
  intros st Hk.
  assert (wf_store st) as Hst by apply wf_run, wf_empty_store.
  assert (∃ s', sponsors st !! k = Some s' ∧ postCount s' = postCount s
    ∧ Forall2 same_counters (posts s') (posts s)
    ∧ s_id s' = s_id s ∧ companyName s' = companyName s
    ∧ logo s' = logo s ∧ objectives s' = objectives s) as Hsame.
  { exists s. split_and!; try done. apply same_counters_refl. }
  destruct (sponsors st !! sid) as [sponsor|] eqn:Hs;
    [|by unfold update_post, findById; rewrite Hs].
  destruct (posts_id (posts sponsor) pid) as [[i post]|] eqn:Hp;
    [|by unfold update_post, findById; rewrite Hs, Hp].
  destruct (update_post_Some sid pid i req st sponsor post Hst Hs Hp)
    as (post' & st' & -> & _ & _ & _ & Hpost & Hst'). simpl. rewrite Hst'.
  destruct (decide (sid = k)) as [->|Hne]; [|by rewrite lookup_insert_ne].
  rewrite lookup_insert_eq. simplify_eq. eexists. split; [done|]. simpl.
  split_and!; try done.
  destruct (posts_id_Some _ _ _ _ Hp) as [Hi _].
  rewrite <- (list_insert_id (posts s) i post Hi) at 2.
  apply Forall2_insert; [apply same_counters_refl|done].
Qed.

Lemma update_post_frame_witness :
  ∃ s', sponsors (update_post 0 1
                    (mkReq {[ "caption" := "New"; "views" := "99";
                              "clicks" := "99"; "postCount" := "99" ]}
                       (Some "a.png") no_date) acme_store).2 !! 0%nat
        = Some s'
        ∧ postCount s' = postCount acme
        ∧ Forall2 same_counters (posts s') (posts acme)
        ∧ s_id s' = s_id acme ∧ companyName s' = companyName acme
        ∧ logo s' = logo acme ∧ objectives s' = objectives acme.
Proof.
  apply (update_post_frame acme_trace 0 1 _ 0 acme). by vm_compute.
Defined.

(** C10. The post that a successful add-post appends, and persists,
    has [views] 0, as the handler writes it, and [clicks] 0, by the
    default of the schema. *)
Theorem new_post_counters (id : nat) (req : Req) (st st' : Store)
    (m : string) (s' : Sponsor) :
  add_post id req st = (Json 200 (MessageSponsor m s'), st') →
  ∃ s post,
    sponsors st !! id = Some s
    ∧ posts s' = (posts s ++ [post])%list
    ∧ sponsors st' !! s_id s' = Some s'
    ∧ views post = 0 ∧ clicks post = 0.
Proof.
  intros (s & post & n & Hs & -> & -> & Hst' & _)%add_post_Some.
  exists s. eexists. rewrite Hst'. simpl. rewrite lookup_insert_eq.
  by split_and!.
Qed.

Lemma new_post_counters_witness :
  ∃ s post,
    sponsors (run (take 1 acme_trace) empty_store) !! 0%nat = Some s
    ∧ posts acme = (posts s ++ [post])%list
    ∧ sponsors acme_store !! s_id acme = Some acme
    ∧ views post = 0 ∧ clicks post = 0.
Proof.
  apply (new_post_counters 0
           (mkReq {[ "caption" := "Hiring"; "jobLink" := "https://x.test" ]}
              None no_date)
           (run (take 1 acme_trace) empty_store) acme_store
           "Post added and notification sent" acme).
  by vm_compute.
Defined.

(** The scenario of the specification: register, add a post, follow
    its link, delete it, and look at it again. *)
Example scenario :
  (handle (PostRegister (mkReq {[ "companyName" := "Acme" ]} None no_date))
     empty_store).1
  = Json 201 (MessageSponsor "Sponsor registered successfully"
                {| s_id := 0; companyName := Some "Acme"; logo := None;
                   objectives := None; posts := []; postCount := 0 |})
  ∧ sponsors acme_store !! 0%nat = Some acme
  ∧ (handle (GetRedirect 0 1) acme_store).1 = RedirectTo 302 "https://x.test"
  ∧ sponsors (run [GetRedirect 0 1] acme_store) !! 0%nat
    = Some (set_posts [set_clicks 1 acme_post] acme)
  ∧ (handle (DeleteSponsorPost 0 1) (run [GetRedirect 0 1] acme_store)).1
    = Json 200 (Message "✅ Post deleted successfully")
  ∧ postCount <$> sponsors (run [GetRedirect 0 1; DeleteSponsorPost 0 1]
                              acme_store) !! 0%nat = Some 0
  ∧ (handle (GetView 0 1)
       (run [GetRedirect 0 1; DeleteSponsorPost 0 1] acme_store)).1
    = Json 404 (Message "Post not found")
  ∧ (handle (GetRedirect 0 1)
       (run [GetRedirect 0 1; DeleteSponsorPost 0 1] acme_store)).1
    = Json 404 (Message "Post not found").
Proof. by vm_compute. Qed.

End sponsor_routes.

(** * Properties of the upload pipeline *)
Section upload_pipeline.
Import Upload Sample.

Variable env : Env.

#[local] Arguments path_join : simpl never.

Lemma unlinkSync_present (path : string) (w : World) :
  is_Some (fs w !! path) →
  unlinkSync path w
  = (Ok tt, {| fs := delete path (fs w);
               log := (log w ++ [Unlink path])%list;
               ticks := ticks w |}).
Proof. intros [d H]. unfold unlinkSync. by rewrite H. Qed.

(** What [compressVideo] returns and the world it leaves, on ['end'] and
    on ['error']. *)
Lemma compressVideo_run (inputBuffer : list Byte.byte) (outputPath : string)
    (w : World) :
  let tempInputPath :=
    path_join UPLOAD_DIR ("input-" ++ pretty (now env (ticks w)) ++ ".mp4") in
  compressVideo env inputBuffer outputPath w
  = match ffmpeg env inputBuffer with
    | FfEnd =>
        (Ok tt,
         {| fs := delete tempInputPath
                    (<[outputPath := Mp4 28 inputBuffer]>
                       (<[tempInputPath := Bytes inputBuffer]> (fs w)));
            log := (log w ++ [WriteFile tempInputPath;
                              Ffmpeg tempInputPath outputPath;
                              WriteFile outputPath;
                              Unlink tempInputPath])%list;
            ticks := S (ticks w) |})
    | FfError err =>
        (Throw err,
         {| fs := delete tempInputPath
                    (<[tempInputPath := Bytes inputBuffer]> (fs w));
            log := (log w ++ [WriteFile tempInputPath;
                              Ffmpeg tempInputPath outputPath;
                              Unlink tempInputPath])%list;
            ticks := S (ticks w) |})
    end.
Proof.
  intros temp.
  unfold compressVideo, mbind, M_bind, bind, Date_now, writeFileSync, emit.
  simpl. fold temp. destruct (ffmpeg env inputBuffer) as [|err]; simpl.
  - rewrite unlinkSync_present; simpl.
    + by rewrite <- !app_assoc.
    + rewrite lookup_insert. case_decide; [done|].
      by rewrite lookup_insert_eq.
  - rewrite unlinkSync_present; simpl.
    + by rewrite <- !app_assoc.
    + by rewrite lookup_insert_eq.
Qed.

(** C8. [compressVideo] writes the raw input to its temporary file,
    runs ffmpeg, and unlinks the temporary file on ['end'] as on
    ['error']; afterwards the file is not there.  On ['error'] the
    unlink is the last thing done and the promise rejects with the
    error of ffmpeg. *)
Theorem compressVideo_removes_temp (inputBuffer : list Byte.byte)
    (outputPath : string) (w : World) :
  let tempInputPath :=
    path_join UPLOAD_DIR ("input-" ++ pretty (now env (ticks w)) ++ ".mp4") in
  let res := compressVideo env inputBuffer outputPath w in
  fs res.2 !! tempInputPath = None
  ∧ log res.2
    = (log w ++ [WriteFile tempInputPath; Ffmpeg tempInputPath outputPath]
         ++ match ffmpeg env inputBuffer with
            | FfEnd => [WriteFile outputPath; Unlink tempInputPath]
            | FfError _ => [Unlink tempInputPath]
            end)%list
  ∧ res.1 = match ffmpeg env inputBuffer with
            | FfEnd => Ok tt
            | FfError err => Throw err
            end.
Proof.
  intros temp res. subst res. rewrite compressVideo_run. fold temp.
  destruct (ffmpeg env inputBuffer) as [|err]; simpl;
    by rewrite lookup_delete_eq.
Qed.

(** A video, for the pipeline, is a file whose declared type starts
    with [video/] and not with [image/]; it goes through
    [compressVideo]. *)
Lemma compress_video (file : File) (w : World) :
  startsWith (mimetype file) "image/" = false →
  startsWith (mimetype file) "video/" = true →
  let originalExt := toLowerCase (extname (originalname file)) in
  let safeName :=
    toLowerCase (replace_non_alnum (basename (originalname file) originalExt)) in
  let outputPath :=
    path_join UPLOAD_DIR
      ("compressed-" ++ safeName ++ "-" ++ pretty (now env (ticks w))
         ++ ".mp4") in
  compress env file w
  = match compressVideo env (buffer file) outputPath
            {| fs := fs w; log := log w; ticks := S (ticks w) |} with
    | (Ok _, w2) => (Ok (outputPath, "video/mp4"), w2)
    | (Throw err, w2) => (Throw err, w2)
    end.
Proof.
  intros Hi Hv. unfold compress, mbind, M_bind, bind, Date_now. simpl.
  rewrite Hi, Hv. unfold mbind, bind.
  by destruct (compressVideo _ _ _ _) as [[] ?].
Qed.

(** A failed transcode of the only file of a request reaches the
    client as a 500 that carries the error of ffmpeg; the temporary
    input is gone and the media store has not been called. *)
Lemma video_upload_error (file : File) (w : World) (err : string) :
  startsWith (mimetype file) "image/" = false →
  startsWith (mimetype file) "video/" = true →
  ffmpeg env (buffer file) = FfError err →
  ∃ w', post_upload env (Some [file]) w
        = (Failure 500 "Upload failed" (Some err), w')
        ∧ fs w' !! path_join UPLOAD_DIR
                     ("input-" ++ pretty (now env (S (ticks w))) ++ ".mp4")
          = None
        ∧ Forall (λ e, ∀ p f, e ≠ Cloudinary p f)
            (drop (length (log w)) (log w')).
Proof.
  intros Hi Hv Herr. unfold post_upload, for_files, process_file.
  unfold mbind at 1 2. unfold M_bind, bind.
  rewrite (compress_video file w Hi Hv), compressVideo_run, Herr. simpl.
  eexists. split; [done|]. simpl. rewrite lookup_delete_eq. split; [done|].
  rewrite <- app_assoc, drop_app_length. by repeat constructor.
Qed.


(** When sharp rejects the buffer of the only file of a request, nothing
    is written, the media store is not called, and the client gets a 500
    with the error of sharp. *)
Lemma image_upload_rejected (file : File) (w : World) (err : string) :
  startsWith (mimetype file) "image/" = true →
  sharp_decode env (buffer file) = inl err →
  ∃ w', post_upload env (Some [file]) w
        = (Failure 500 "Upload failed" (Some err), w')
        ∧ fs w' = fs w
        ∧ Forall (λ e, ∀ p f, e ≠ Cloudinary p f)
            (drop (length (log w)) (log w')).
Proof.
  intros Hmime Himg. unfold post_upload, for_files, process_file.
  unfold mbind at 1 2. unfold M_bind, bind.
  unfold compress, mbind, M_bind, bind, Date_now. simpl. rewrite Hmime.
  unfold compressImage, mbind, M_bind, bind, emit. simpl. rewrite Himg.
  simpl. eexists. split; [done|]. simpl. split; [done|].
  rewrite <- app_assoc, drop_app_length. by repeat constructor.
Qed.

(** C3. A request with no file is answered 400 at once: the world, that
    is the local files, the calls made to sharp, ffmpeg and the media
    store, and the clock, is as before. *)
Theorem empty_batch_rejected (files : option (list File)) (w : World) :
  length (default [] files) = 0%nat →
  post_upload env files w = (Failure 400 "No files uploaded" None, w).
Proof. by destruct files as [[|]|]. Qed.

End upload_pipeline.

Section upload_witnesses.
Import Upload Sample.


Lemma empty_batch_rejected_witness :
  post_upload env0 (Some []) w0 = (Failure 400 "No files uploaded" None, w0).
Proof. apply (empty_batch_rejected env0 (Some []) w0). reflexivity. Defined.


(** A request with a photo and a clip, and one with a clip that ffmpeg
    cannot read. *)
Example upload_photo_and_clip :
  post_upload env0
    (Some [photo;
           {| originalname := "clip.mov"; mimetype := "video/quicktime";
              buffer := [Byte.x01] |}]) w0
  = (Success 200
       [{| name := "Photo.PNG";
           url := "https://res.test/uploads/compressed-photo_png-1700.jpg";
           public_id := "uploads/compressed-photo_png-1700.jpg";
           type := "image/jpeg" |};
        {| name := "clip.mov";
           url := "https://res.test/uploads/compressed-clip-1701.mp4";
           public_id := "uploads/compressed-clip-1701.mp4";
           type := "video/mp4" |}],
     {| fs := ∅;
        log := [Sharp "uploads/compressed-photo_png-1700.jpg";
                WriteFile "uploads/compressed-photo_png-1700.jpg";
                Cloudinary "uploads/compressed-photo_png-1700.jpg" "uploads";
                Unlink "uploads/compressed-photo_png-1700.jpg";
                WriteFile "uploads/input-1702.mp4";
                Ffmpeg "uploads/input-1702.mp4"
                  "uploads/compressed-clip-1701.mp4";
                WriteFile "uploads/compressed-clip-1701.mp4";
                Unlink "uploads/input-1702.mp4";
                Cloudinary "uploads/compressed-clip-1701.mp4" "uploads";
                Unlink "uploads/compressed-clip-1701.mp4"];
        ticks := 3 |}).
Proof. by vm_compute. Qed.

Example upload_unreadable_clip :
  post_upload env0
    (Some [{| originalname := "clip.mp4"; mimetype := "video/mp4";
              buffer := [] |}]) w0
  = (Failure 500 "Upload failed"
       (Some "Invalid data found when processing input"),
     {| fs := ∅;
        log := [WriteFile "uploads/input-1701.mp4";
                Ffmpeg "uploads/input-1701.mp4"
                  "uploads/compressed-clip-1700.mp4";
                Unlink "uploads/input-1701.mp4";
                ConsoleError "Invalid data found when processing input"];
        ticks := 2 |}).
Proof. by vm_compute. Qed.

End upload_witnesses.

(** * Further properties of the sponsor routes *)
Section store_steps.

Implicit Types (st : Store) (s : Sponsor) (p q : Post) (l : list Post).

Lemma run_app (t1 t2 : list Request) st :
  run (t1 ++ t2) st = run t2 (run t1 st).
Proof. revert st. induction t1 as [|r t1 IH]; intros st; simpl; [done|apply IH]. Qed.

(** In a list with distinct identifiers a post is known by its identifier. *)
Lemma same_id_same_post l p q :
  NoDup (p_id <$> l) → p ∈ l → q ∈ l → p_id p = p_id q → p = q.
Proof.
  intros Hn [i Hi]%list_elem_of_lookup [j Hj]%list_elem_of_lookup Hpq.
  assert (i = j) as ->; [|congruence].
  eapply NoDup_lookup; [exact Hn|..]; rewrite list_lookup_fmap.
  - by rewrite Hi.
  - by rewrite Hj, Hpq.
Qed.

(** Where a post of the list after a step comes from. *)
Lemma posts_step_elem (fresh : nat) l l' p' :
  posts_step fresh l l' → p' ∈ l' →
  (∃ p, p ∈ l ∧ p_id p = p_id p' ∧ (views p ≤ views p')%Z
        ∧ (clicks p ≤ clicks p')%Z)
  ∨ (p_id p' = fresh ∧ views p' = 0 ∧ clicks p' = 0).
Proof.
  intros [p Hid Hv Hc|i p q Hi Hid Hv Hc|i] Hp'.
  - apply elem_of_app in Hp' as [Hp'|Hp'].
    + left. exists p'. by split_and!.
    + apply list_elem_of_singleton in Hp' as ->. by right.
  - apply list_elem_of_lookup in Hp' as [j Hj].
    apply list_lookup_insert_Some in Hj as [(-> & -> & _)|[_ Hj]]; left.
    + exists p. split_and!; try done. by eapply list_elem_of_lookup_2.
    + exists p'. split_and!; try done. by eapply list_elem_of_lookup_2.
  - left. exists p'. split_and!; try done.
    eapply elem_of_sublist; [done|apply sublist_delete].
Qed.

Lemma save_Some s st st' :
  save s st = Some st' →
  st' = {| sponsors := <[s_id s := s]> (sponsors st);
           notifications := notifications st; nextId := nextId st |}.
Proof. unfold save. destruct (validate s); congruence. Qed.

(** Every request is one step of the store, and the generator never
    goes back. *)
Lemma handle_step (r : Request) st :
  wf_store st →
  store_step st (handle r st).2 ∧ (nextId st ≤ nextId (handle r st).2)%nat.
Proof.
  intros Hst. destruct r as [req|id req|id|sid pid req|sid pid|sid pid|sid pid|id];
    simpl.
  - unfold register. simpl. destruct (save _ _) as [st2|] eqn:Hsave; simpl.
    + apply save_Some in Hsave as ->. simpl. split; [|simpl; clear; lia].
      eapply step_new; [..|reflexivity]; simpl; first [done|clear; lia].
    + split; [by apply step_none|simpl; clear; lia].
  - unfold add_post, findById.
    destruct (sponsors st !! id) as [s|] eqn:Hs;
      [|split; [by apply step_none|simpl; clear; lia]]. simpl.
    destruct (save _ _) as [st2|] eqn:Hsave; simpl.
    + apply save_Some in Hsave as ->. simpl. split; [|simpl; clear; lia].
      rewrite (wf_key _ _ _ (Hst _ _ Hs)).
      eapply step_write; [exact Hs| |done]. simpl. by apply step_push.
    + split; [by apply step_none|simpl; lia].
  - unfold get_posts, findById.
    destruct (sponsors st !! id); (split; [by apply step_none|simpl; clear; lia]).
  - unfold update_post, findById.
    destruct (sponsors st !! sid) as [s|] eqn:Hs;
      [|split; [by apply step_none|simpl; clear; lia]].
    destruct (posts_id _ _) as [[i p]|] eqn:Hp;
      [|split; [by apply step_none|simpl; clear; lia]].
    apply posts_id_Some in Hp as [Hi _].
    destruct (save _ _) as [st2|] eqn:Hsave; simpl;
      [|split; [by apply step_none|simpl; clear; lia]].
    apply save_Some in Hsave as ->. simpl. split; [|simpl; clear; lia].
    rewrite (wf_key _ _ _ (Hst _ _ Hs)).
    eapply step_write; [exact Hs| |done]. simpl.
    eapply step_set; [exact Hi|..]; by repeat case_match.
  - unfold delete_post, findById.
    destruct (sponsors st !! sid) as [s|] eqn:Hs;
      [|split; [by apply step_none|simpl; clear; lia]].
    destruct (posts_id _ _) as [[i p]|] eqn:Hp;
      [|split; [by apply step_none|simpl; clear; lia]].
    destruct (save _ _) as [st2|] eqn:Hsave; simpl;
      [|split; [by apply step_none|simpl; clear; lia]].
    apply save_Some in Hsave as ->. simpl. split; [|simpl; clear; lia].
    rewrite (wf_key _ _ _ (Hst _ _ Hs)).
    eapply step_write; [exact Hs| |done]. simpl. apply step_splice.
  - unfold register_view, findById.
    destruct (sponsors st !! sid) as [s|] eqn:Hs;
      [|split; [by apply step_none|simpl; clear; lia]].
    destruct (posts_id _ _) as [[i p]|] eqn:Hp;
      [|split; [by apply step_none|simpl; clear; lia]].
    apply posts_id_Some in Hp as [Hi _].
    destruct (save _ _) as [st2|] eqn:Hsave; simpl;
      [|split; [by apply step_none|simpl; clear; lia]].
    apply save_Some in Hsave as ->. simpl. split; [|simpl; clear; lia].
    rewrite (wf_key _ _ _ (Hst _ _ Hs)).
    eapply step_write; [exact Hs| |done]. simpl.
    eapply step_set; [exact Hi|done|..]; simpl; [rewrite num_or_succ|]; lia.
  - unfold redirect, findById.
    destruct (sponsors st !! sid) as [s|] eqn:Hs;
      [|split; [by apply step_none|simpl; clear; lia]].
    destruct (posts_id _ _) as [[i p]|] eqn:Hp;
      [|split; [by apply step_none|simpl; clear; lia]].
    apply posts_id_Some in Hp as [Hi _].
    destruct (save _ _) as [st2|] eqn:Hsave; simpl;
      [|split; [by apply step_none|simpl; clear; lia]].
    apply save_Some in Hsave as ->. simpl. split; [|simpl; clear; lia].
    rewrite (wf_key _ _ _ (Hst _ _ Hs)).
    eapply step_write; [exact Hs| |done]. simpl.
    eapply step_set; [exact Hi|done|..]; simpl; [|rewrite num_or_succ]; lia.
  - unfold delete_sponsor, findByIdAndDelete.
    destruct (sponsors st !! id); simpl; (split; [by eapply step_drop|simpl; clear; lia]).
Qed.

Lemma unique_ids_empty : unique_ids empty_store.
Proof. split; simpl; intros *; by rewrite lookup_empty. Qed.

Lemma unique_ids_step st st' :
  wf_store st → unique_ids st → store_step st st' →
  (nextId st ≤ nextId st')%nat → unique_ids st'.
Proof.
  intros Hwf [Hkeys Hposts Hapart Hcount] Hstep Hnext.
  assert (∀ k s p, sponsors st !! k = Some s → p ∈ posts s →
            (p_id p < nextId st)%nat) as Hbound.
  { intros k s p Hs Hp.
    by apply (proj1 (Forall_forall _ _) (wf_bound _ _ _ (Hwf _ _ Hs))). }
  destruct Hstep as [E|s0 Hid Hnil Hlt E|k0 s0 s0' Hs0 Hstep E|k0 E].
  - split; rewrite E; [|done..]. intros k s Hs. specialize (Hkeys _ _ Hs). lia.
  - assert (sponsors st !! nextId st = None) as Hfresh.
    { destruct (sponsors st !! nextId st) eqn:E'; [|done].
      apply Hkeys in E'. lia. }
    split.
    + rewrite E. intros k s [[<- <-]|[_ Hs]]%lookup_insert_Some; [lia|].
      specialize (Hkeys _ _ Hs). lia.
    + rewrite E. intros k1 k2 s1 s2 p1 p2
        [[<- <-]|[_ H1]]%lookup_insert_Some [[<- <-]|[_ H2]]%lookup_insert_Some
        Hp1 Hp2; rewrite ?Hnil in *;
        try (by apply elem_of_nil in Hp1); try (by apply elem_of_nil in Hp2);
        eauto.
    + rewrite E. intros k s p [[<- <-]|[_ Hs]]%lookup_insert_Some Hp.
      { rewrite Hnil in Hp. by apply elem_of_nil in Hp. }
      rewrite lookup_insert_ne; [by eapply Hapart|].
      specialize (Hbound _ _ _ Hs Hp). lia.
    + rewrite E. intros k s p [[<- <-]|[_ Hs]]%lookup_insert_Some Hp; [|by eapply Hcount].
      rewrite Hnil in Hp. by apply elem_of_nil in Hp.
  - assert (∀ p', p' ∈ posts s0' →
        (∃ p, p ∈ posts s0 ∧ p_id p = p_id p' ∧ (views p ≤ views p')%Z
              ∧ (clicks p ≤ clicks p')%Z)
        ∨ (p_id p' = nextId st ∧ views p' = 0 ∧ clicks p' = 0)) as Horigin
      by (intros p'; by apply posts_step_elem).
    split.
    + rewrite E. intros k s [[<- <-]|[_ Hs]]%lookup_insert_Some.
      * specialize (Hkeys _ _ Hs0). lia.
      * specialize (Hkeys _ _ Hs). lia.
    + rewrite E. intros k1 k2 s1 s2 p1 p2
        [[<- <-]|[Hne1 H1]]%lookup_insert_Some
        [[<- <-]|[Hne2 H2]]%lookup_insert_Some Hp1 Hp2 Heq; [done|..|by eauto].
      * destruct (Horigin _ Hp1) as [(p & Hp & Hpid & _)|(Hpid & _)].
        -- eapply (Hposts _ _ _ _ p p2); eauto. congruence.
        -- specialize (Hbound _ _ _ H2 Hp2). lia.
      * destruct (Horigin _ Hp2) as [(p & Hp & Hpid & _)|(Hpid & _)].
        -- eapply (Hposts _ _ _ _ p1 p); eauto. congruence.
        -- specialize (Hbound _ _ _ H1 Hp1). lia.
    + rewrite E. assert (∀ k s p, <[k0:=s0']> (sponsors st) !! k = Some s → p ∈ posts s →
                sponsors st !! p_id p = None) as Hold.
      { intros k s p [[<- <-]|[_ Hs]]%lookup_insert_Some Hp; [|by eauto].
        destruct (Horigin _ Hp) as [(p0 & Hp0 & <- & _)|(-> & _)]; [by eauto|].
        destruct (sponsors st !! nextId st) eqn:E'; [|done].
        apply Hkeys in E'. lia. }
      intros k s p Hs Hp. specialize (Hold _ _ _ Hs Hp).
      rewrite lookup_insert_ne; [done|]. congruence.
    + rewrite E. intros k s p [[<- <-]|[_ Hs]]%lookup_insert_Some Hp; [|by eauto].
      destruct (Horigin _ Hp) as [(p0 & Hp0 & _ & Hv & Hc)|(_ & -> & ->)];
        [|lia].
      destruct (Hcount _ _ _ Hs0 Hp0). lia.
  - split.
    + rewrite E. intros k s [_ Hs]%lookup_delete_Some. specialize (Hkeys _ _ Hs). lia.
    + rewrite E. intros k1 k2 s1 s2 p1 p2 [_ H1]%lookup_delete_Some
        [_ H2]%lookup_delete_Some. by eauto.
    + rewrite E. intros k s p [_ Hs]%lookup_delete_Some Hp.
      apply lookup_delete_None. right. by eauto.
    + rewrite E. intros k s p [_ Hs]%lookup_delete_Some. by eauto.
Qed.

Lemma run_invariants (trace : list Request) st :
  wf_store st → unique_ids st →
  wf_store (run trace st) ∧ unique_ids (run trace st).
Proof.
  revert st. induction trace as [|r trace IH]; intros st Hwf Hu; simpl;
    [done|].
  destruct (handle_step r st Hwf) as [Hstep Hnext].
  apply IH; [by apply wf_handle|by eapply unique_ids_step].
Qed.

Lemma reachable_invariants (trace : list Request) :
  wf_store (run trace empty_store) ∧ unique_ids (run trace empty_store).
Proof. apply run_invariants; [apply wf_empty_store|apply unique_ids_empty]. Qed.

End store_steps.

Section sponsor_extras.

Implicit Types (st : Store) (s : Sponsor) (p q : Post) (l : list Post).

(** *** Unknown sponsors and unknown posts *)

Lemma unknown_sponsor (id pid : nat) (req : Req) st :
  sponsors st !! id = None →
  add_post id req st = (Json 404 (Message "Sponsor not found"), st)
  ∧ get_posts id st = (Json 404 (Message "Sponsor not found"), st)
  ∧ update_post id pid req st = (Json 404 (Message "Sponsor not found"), st)
  ∧ delete_post id pid st = (Json 404 (Message "Sponsor not found"), st)
  ∧ register_view id pid st = (Json 404 (Message "Sponsor not found"), st)
  ∧ redirect id pid st = (Json 404 (Message "Sponsor not found"), st)
  ∧ delete_sponsor id st = (Json 404 (Message "Sponsor not found"), st).
Proof.
  intros Hs.
  unfold add_post, get_posts, update_post, delete_post, register_view,
    redirect, delete_sponsor, findByIdAndDelete, findById.
  rewrite Hs, (delete_id _ _ Hs). by destruct st.
Qed.

Lemma unknown_post (sid pid : nat) (req : Req) st s :
  sponsors st !! sid = Some s → pid ∉ p_id <$> posts s →
  update_post sid pid req st = (Json 404 (Message "Post not found"), st)
  ∧ delete_post sid pid st = (Json 404 (Message "Post not found"), st)
  ∧ register_view sid pid st = (Json 404 (Message "Post not found"), st)
  ∧ redirect sid pid st = (Json 404 (Message "Post not found"), st).
Proof.
  intros Hs Hpid%posts_id_None.
  unfold update_post, delete_post, register_view, redirect, findById.
  by rewrite Hs, Hpid.
Qed.

(** *** Registration *)

(** X1. On a reachable store the identifier of the new sponsor is not in
    use.  With a company name that is present and not empty the sponsor
    is stored under it, with no post and a count of 0, and the answer is
    201; otherwise the answer is 500 and no sponsor is stored or changed.
    Either way the identifier is spent. *)
Theorem register_requires_company_name (trace : list Request) (req : Req) :
  let st := run trace empty_store in
  let new :=
    {| s_id := nextId st; companyName := body req !! "companyName";
       logo := upload_url <$> file req;
       objectives := body req !! "objectives";
       posts := []; postCount := 0 |} in
  sponsors st !! nextId st = None
  ∧ nextId (register req st).2 = S (nextId st)
  ∧ notifications (register req st).2 = notifications st
  ∧ if truthy (body req !! "companyName")
    then (register req st).1
         = Json 201 (MessageSponsor "Sponsor registered successfully" new)
         ∧ sponsors (register req st).2 = <[nextId st := new]> (sponsors st)
    else (register req st).1 = Json 500 (Message "Internal server error")
         ∧ sponsors (register req st).2 = sponsors st.
Proof.
  intros st new. split.
  { destruct (reachable_invariants trace) as [_ Hu].
    destruct (sponsors st !! nextId st) eqn:E; [|done].
    apply (ui_keys _ Hu) in E. by apply Nat.lt_irrefl in E. }
  unfold register, save, validate, truthy. simpl.
  destruct (body req !! "companyName") as [c|]; simpl; [|done].
  by destruct (String.eqb c "").
Qed.

(** *** Adding a post *)

Lemma add_post_ok (id : nat) (req : Req) st s :
  wf_store st → sponsors st !! id = Some s →
  let post :=
    {| p_id := nextId st; media := upload_url <$> file req;
       caption := body req !! "caption"; jobLink := body req !! "jobLink";
       views := 0; clicks := 0; createdAt := date req 0 |} in
  let s' := set_postCount (postCount s + 1) (set_posts (posts s ++ [post]) s) in
  add_post id req st
  = (Json 200 (MessageSponsor "Post added and notification sent" s'),
     {| sponsors := <[id := s']> (sponsors st);
        notifications :=
          notifications st ++
          [{| n_type := "sponsor"; n_title := "New Sponsorship Alert";
              n_content := show (companyName s) ++
                           " just posted a new sponsorship opportunity.";
              sponsorId := Some id; postId := None;
              n_createdAt := date req 1; forAll := true |}];
        nextId := S (nextId st) |}).
Proof.
  intros Hst Hs post s'. destruct (Hst _ _ Hs) as [Hk Hv Hc _ _].
  unfold add_post, findById. rewrite Hs. simpl.
  unfold save, validate. simpl. unfold validate in Hv. rewrite Hv. simpl.
  rewrite Hk.
  assert (Z.of_nat (length (posts s ++ [post])) = postCount s + 1) as Hlen
    by (rewrite length_app, Hc; simpl; lia).
  unfold Notification_create. simpl. subst s' post. by rewrite <- Hlen.
Qed.

(** X2. On a reachable store, adding a post to an existing sponsor
    succeeds; listing the sponsor's posts afterwards gives the posts it
    had, in their order, followed by the new post, which carries the
    caption, job link and media of the request; the count has grown by 1
    and no other sponsor has changed. *)
Theorem add_post_then_get_posts (trace : list Request) (id : nat) (req : Req)
    (s : Sponsor) :
  let st := run trace empty_store in
  let post :=
    {| p_id := nextId st; media := upload_url <$> file req;
       caption := body req !! "caption"; jobLink := body req !! "jobLink";
       views := 0; clicks := 0; createdAt := date req 0 |} in
  sponsors st !! id = Some s →
  ∃ st',
    add_post id req st
    = (Json 200 (MessageSponsor "Post added and notification sent"
                   (set_postCount (postCount s + 1)
                      (set_posts (posts s ++ [post]) s))), st')
    ∧ get_posts id st' = (Json 200 (Posts (posts s ++ [post])), st')
    ∧ ∀ k, k ≠ id → sponsors st' !! k = sponsors st !! k.
Proof.
  intros st post Hs. eexists. split.
  { apply add_post_ok; [apply wf_run, wf_empty_store|done]. }
  split.
  - unfold get_posts, findById. simpl. by rewrite lookup_insert_eq.
  - intros k Hk. simpl. by rewrite lookup_insert_ne.
Qed.

Lemma add_post_then_get_posts_witness :
  ∃ st',
    add_post 0 empty_caption acme_store
    = (Json 200 (MessageSponsor "Post added and notification sent"
                   (set_postCount (postCount acme + 1)
                      (set_posts
                         (posts acme ++
                          [{| p_id := nextId acme_store;
                              media := upload_url <$> file empty_caption;
                              caption := body empty_caption !! "caption";
                              jobLink := body empty_caption !! "jobLink";
                              views := 0; clicks := 0;
                              createdAt := date empty_caption 0 |}])
                         acme))), st')
    ∧ get_posts 0 st'
      = (Json 200
           (Posts (posts acme ++
                   [{| p_id := nextId acme_store;
                       media := upload_url <$> file empty_caption;
                       caption := body empty_caption !! "caption";
                       jobLink := body empty_caption !! "jobLink";
                       views := 0; clicks := 0;
                       createdAt := date empty_caption 0 |}])), st')
    ∧ ∀ k, k ≠ 0%nat → sponsors st' !! k = sponsors acme_store !! k.
Proof.
  apply (add_post_then_get_posts acme_trace 0 empty_caption acme).
  by vm_compute.
Defined.

(** *** Deleting a post *)

Lemma filter_absent l (P : Post) :
  P ∉ l → filter (λ Q, Q ≠ P) l = l.
Proof.
  induction l as [|x l IH]; intros HP; [done|].
  apply not_elem_of_cons in HP as [Hx Hl].
  rewrite filter_cons_True by done. by rewrite IH.
Qed.

Lemma delete_as_filter l (i : nat) (P : Post) :
  NoDup l → l !! i = Some P → delete i l = filter (λ Q, Q ≠ P) l.
Proof.
  revert i. induction l as [|x l IH]; intros i Hn Hi; [done|].
  apply NoDup_cons in Hn as [Hx Hn]. destruct i as [|i]; simpl in *.
  - injection Hi as ->. rewrite filter_cons_False by (by intros []).
    by rewrite filter_absent.
  - rewrite filter_cons_True.
    + by rewrite (IH i).
    + intros ->. apply Hx. by eapply list_elem_of_lookup_2.
Qed.

Lemma delete_post_ok (sid : nat) st s (P : Post) :
  wf_store st → sponsors st !! sid = Some s → P ∈ posts s →
  delete_post sid (p_id P) st
  = (Json 200 (Message "✅ Post deleted successfully"),
     {| sponsors :=
          <[sid := set_postCount (postCount s - 1)
                     (set_posts (filter (λ Q, Q ≠ P) (posts s)) s)]>
            (sponsors st);
        notifications := notifications st;
        nextId := nextId st |}).
Proof.
  intros Hst Hs HP. destruct (Hst _ _ Hs) as [Hk Hv Hc Hn _].
  destruct (posts_id_elem_of _ _ Hn HP) as (i & Hfind & Hi).
  unfold delete_post, findById. rewrite Hs, Hfind.
  unfold save, validate. simpl. unfold validate in Hv. rewrite Hv, Hk.
  assert (Z.of_nat (length (delete i (posts s))) = postCount s - 1) as ->.
  { rewrite length_delete by eauto. rewrite Hc.
    apply lookup_lt_Some in Hi. lia. }
  rewrite (delete_as_filter _ i P); [done|by eapply NoDup_fmap_1|done].
Qed.

(** X3. On a reachable store, deleting a post [P] of a sponsor succeeds
    and takes out [P] and nothing else: the other posts stay, in their
    order, the count drops by 1, and the other sponsors, the
    notifications and the generator are as before. *)
Theorem delete_post_removes_that_post (trace : list Request) (sid : nat)
    (s : Sponsor) (P : Post) :
  let st := run trace empty_store in
  sponsors st !! sid = Some s → P ∈ posts s →
  delete_post sid (p_id P) st
  = (Json 200 (Message "✅ Post deleted successfully"),
     {| sponsors :=
          <[sid := set_postCount (postCount s - 1)
                     (set_posts (filter (λ Q, Q ≠ P) (posts s)) s)]>
            (sponsors st);
        notifications := notifications st;
        nextId := nextId st |}).
Proof. intros st. apply delete_post_ok, wf_run, wf_empty_store. Qed.

Lemma delete_post_removes_that_post_witness :
  delete_post 0 (p_id acme_post) acme_store
  = (Json 200 (Message "✅ Post deleted successfully"),
     {| sponsors :=
          <[0%nat := set_postCount (postCount acme - 1)
                       (set_posts (filter (λ Q, Q ≠ acme_post) (posts acme))
                          acme)]> (sponsors acme_store);
        notifications := notifications acme_store;
        nextId := nextId acme_store |}).
Proof.
  apply (delete_post_removes_that_post acme_trace 0 acme acme_post).
  - by vm_compute.
  - apply list_elem_of_here.
Defined.

(** X4. Once a post is deleted, its identifier no longer resolves under
    its sponsor: a view, a click, an update and a second delete are each
    answered 404 and change nothing. *)
Theorem deleted_post_is_gone (trace : list Request) (sid : nat) (s : Sponsor)
    (P : Post) (req : Req) :
  let st := run trace empty_store in
  sponsors st !! sid = Some s → P ∈ posts s →
  let st' := (delete_post sid (p_id P) st).2 in
  register_view sid (p_id P) st' = (Json 404 (Message "Post not found"), st')
  ∧ redirect sid (p_id P) st' = (Json 404 (Message "Post not found"), st')
  ∧ update_post sid (p_id P) req st'
    = (Json 404 (Message "Post not found"), st')
  ∧ delete_post sid (p_id P) st' = (Json 404 (Message "Post not found"), st').
Proof.
  intros st Hs HP st'.
  assert (wf_store st) as Hst by apply wf_run, wf_empty_store.
  subst st'. rewrite (delete_post_ok sid st s P Hst Hs HP). simpl.
  edestruct (unknown_post sid (p_id P) req) as (Hu & Hd & Hv & Hr);
    [..|by split_and!].
  - simpl. apply lookup_insert_eq.
  - simpl. intros (Q & HQ & [HQP HQs]%list_elem_of_filter)%list_elem_of_fmap.
    apply HQP. symmetry.
    by eapply (same_id_same_post (posts s)); [apply (Hst _ _ Hs)|..].
Qed.

Lemma deleted_post_is_gone_witness :
  let st' := (delete_post 0 (p_id acme_post) acme_store).2 in
  register_view 0 (p_id acme_post) st'
  = (Json 404 (Message "Post not found"), st')
  ∧ redirect 0 (p_id acme_post) st' = (Json 404 (Message "Post not found"), st')
  ∧ update_post 0 (p_id acme_post) empty_caption st'
    = (Json 404 (Message "Post not found"), st')
  ∧ delete_post 0 (p_id acme_post) st'
    = (Json 404 (Message "Post not found"), st').
Proof.
  apply (deleted_post_is_gone acme_trace 0 acme acme_post empty_caption).
  - by vm_compute.
  - apply list_elem_of_here.
Defined.

(** *** Deleting a sponsor *)

(** X5. Deleting a stored sponsor answers 200 and removes that sponsor
    alone; the notifications that name it stay.  Afterwards every route
    that is given its identifier answers 404 and changes nothing. *)
Theorem deleted_sponsor_is_gone (id pid : nat) (req : Req) (st : Store)
    (s : Sponsor) :
  sponsors st !! id = Some s →
  let st' := (delete_sponsor id st).2 in
  (delete_sponsor id st).1 = Json 200 (Message "Sponsor deleted successfully")
  ∧ sponsors st' = delete id (sponsors st)
  ∧ notifications st' = notifications st
  ∧ add_post id req st' = (Json 404 (Message "Sponsor not found"), st')
  ∧ get_posts id st' = (Json 404 (Message "Sponsor not found"), st')
  ∧ update_post id pid req st' = (Json 404 (Message "Sponsor not found"), st')
  ∧ delete_post id pid st' = (Json 404 (Message "Sponsor not found"), st')
  ∧ register_view id pid st' = (Json 404 (Message "Sponsor not found"), st')
  ∧ redirect id pid st' = (Json 404 (Message "Sponsor not found"), st')
  ∧ delete_sponsor id st' = (Json 404 (Message "Sponsor not found"), st').
Proof.
  intros Hs st'. subst st'.
  assert (delete_sponsor id st
          = (Json 200 (Message "Sponsor deleted successfully"),
             {| sponsors := delete id (sponsors st);
                notifications := notifications st; nextId := nextId st |}))
    as E by (unfold delete_sponsor, findByIdAndDelete; by rewrite Hs).
  rewrite !E. simpl.
  destruct (unknown_sponsor id pid req
              {| sponsors := delete id (sponsors st);
                 notifications := notifications st; nextId := nextId st |})
    as (? & ? & ? & ? & ? & ? & ?); [apply lookup_delete_eq|].
  by split_and!.
Qed.

Lemma deleted_sponsor_is_gone_witness :
  let st' := (delete_sponsor 0 acme_store).2 in
  (delete_sponsor 0 acme_store).1
  = Json 200 (Message "Sponsor deleted successfully")
  ∧ sponsors st' = delete 0%nat (sponsors acme_store)
  ∧ notifications st' = notifications acme_store
  ∧ add_post 0 empty_caption st' = (Json 404 (Message "Sponsor not found"), st')
  ∧ get_posts 0 st' = (Json 404 (Message "Sponsor not found"), st')
  ∧ update_post 0 1 empty_caption st'
    = (Json 404 (Message "Sponsor not found"), st')
  ∧ delete_post 0 1 st' = (Json 404 (Message "Sponsor not found"), st')
  ∧ register_view 0 1 st' = (Json 404 (Message "Sponsor not found"), st')
  ∧ redirect 0 1 st' = (Json 404 (Message "Sponsor not found"), st')
  ∧ delete_sponsor 0 st' = (Json 404 (Message "Sponsor not found"), st').
Proof.
  apply (deleted_sponsor_is_gone 0 1 empty_caption acme_store acme).
  by vm_compute.
Defined.

(** *** Identifiers and counters *)

(** X6. In a reachable store every sponsor is stored under its own
    identifier, every identifier in use is one the generator has given
    out, a post identifier occurs once in the whole store, and no post
    identifier is the identifier of a sponsor. *)
Theorem identifiers_are_unique (trace : list Request) :
  let st := run trace empty_store in
  (∀ k s, sponsors st !! k = Some s → s_id s = k ∧ (k < nextId st)%nat)
  ∧ (∀ k1 k2 s1 s2 p1 p2,
       sponsors st !! k1 = Some s1 → sponsors st !! k2 = Some s2 →
       p1 ∈ posts s1 → p2 ∈ posts s2 → p_id p1 = p_id p2 →
       k1 = k2 ∧ p1 = p2)
  ∧ (∀ k s p,
       sponsors st !! k = Some s → p ∈ posts s →
       (p_id p < nextId st)%nat ∧ sponsors st !! p_id p = None).
Proof.
  intros st. destruct (reachable_invariants trace) as [Hwf Hu]. split_and!.
  - intros k s Hs. split; [apply (Hwf _ _ Hs)|by eapply ui_keys].
  - intros k1 k2 s1 s2 p1 p2 H1 H2 Hp1 Hp2 Hid.
    assert (k1 = k2) as <- by (by eapply (ui_posts _ Hu k1 k2)).
    split; [done|]. simplify_eq.
    by eapply (same_id_same_post (posts s1)); [apply (Hwf _ _ H1)|..].
  - intros k s p Hs Hp. split; [|by eapply ui_apart].
    by apply (proj1 (Forall_forall _ _) (wf_bound _ _ _ (Hwf _ _ Hs))).
Qed.

(** X7. Counters start at 0 and only go up: in a reachable store the
    views and clicks of every post are not negative, and no request
    makes the views or the clicks of a post that survives it smaller. *)
Theorem counters_never_decrease (trace : list Request) (r : Request)
    (k : nat) (s s' : Sponsor) (p p' : Post) :
  let st := run trace empty_store in
  sponsors st !! k = Some s → sponsors (handle r st).2 !! k = Some s' →
  p ∈ posts s → p' ∈ posts s' → p_id p = p_id p' →
  (0 ≤ views p ≤ views p')%Z ∧ (0 ≤ clicks p ≤ clicks p')%Z.
Proof.
  intros st Hs Hs' Hp Hp' Hid.
  destruct (reachable_invariants trace) as [Hwf Hu]. fold st in Hwf, Hu.
  destruct (ui_counters _ Hu _ _ _ Hs Hp) as [Hv Hc].
  assert (p = p' → (0 ≤ views p ≤ views p')%Z ∧ (0 ≤ clicks p ≤ clicks p')%Z)
    as Hsame by (intros <-; lia).
  assert (s = s' → (0 ≤ views p ≤ views p')%Z ∧ (0 ≤ clicks p ≤ clicks p')%Z)
    as Hsame'.
  { intros <-. apply Hsame.
    by eapply (same_id_same_post (posts s)); [apply (Hwf _ _ Hs)|..]. }
  destruct (handle_step r st Hwf) as [[E|s0 _ _ _ E|k0 s0 s0' Hs0 Hstep E|k0 E] _];
    rewrite E in Hs'.
  - apply Hsame'. congruence.
  - apply lookup_insert_Some in Hs' as [[<- _]|[_ Hs']].
    + apply (ui_keys _ Hu) in Hs. lia.
    + apply Hsame'. congruence.
  - apply lookup_insert_Some in Hs' as [[<- <-]|[_ Hs']];
      [|apply Hsame'; congruence].
    simplify_eq.
    destruct (posts_step_elem _ _ _ _ Hstep Hp')
      as [(p0 & Hp0 & Hid0 & Hv0 & Hc0)|(Hfresh & _)].
    + assert (p = p0) as <-; [|lia].
      eapply (same_id_same_post (posts s)); [apply (Hwf _ _ Hs)|done..|].
      congruence.
    + pose proof (proj1 (Forall_forall _ _)
                    (wf_bound _ _ _ (Hwf _ _ Hs)) _ Hp). simpl in *. lia.
  - apply lookup_delete_Some in Hs' as [_ Hs']. apply Hsame'. congruence.
Qed.

Lemma counters_never_decrease_witness :
  (0 ≤ views acme_post ≤ views (set_views 1 acme_post))%Z
  ∧ (0 ≤ clicks acme_post ≤ clicks (set_views 1 acme_post))%Z.
Proof.
  apply (counters_never_decrease acme_trace (GetView 0 1) 0 acme
           (set_posts [set_views 1 acme_post] acme)
           acme_post (set_views 1 acme_post)).
  - by vm_compute.
  - by vm_compute.
  - apply list_elem_of_here.
  - apply list_elem_of_here.
  - done.
Defined.

(** *** The redirect *)

(** X8. On a reachable store a click on a post [P] of a sponsor is
    answered by [res.redirect], which the handler calls with the job
    link of [P], and with ["/"] when [P] has no job link or an empty
    one. *)
Theorem redirect_follows_jobLink (trace : list Request) (sid : nat)
    (s : Sponsor) (P : Post) :
  let st := run trace empty_store in
  sponsors st !! sid = Some s → P ∈ posts s →
  (redirect sid (p_id P) st).1
  = RedirectTo 302 match jobLink P with
                   | Some j => if String.eqb j "" then "/" else j
                   | None => "/"
                   end.
Proof.
  intros st Hs HP.
  assert (wf_store st) as Hst by apply wf_run, wf_empty_store.
  pose proof (Hst _ _ Hs) as Hwf.
  destruct (posts_id_elem_of _ _ (wf_nodup _ _ _ Hwf) HP) as (i & Hfind & Hi).
  unfold redirect, findById. rewrite Hs, Hfind.
  match goal with |- context [save ?s' st] =>
    destruct (save_wf s' st Hst) as (st1 & -> & _) end.
  { by apply (wf_replace_post _ sid i s P). }
  simpl. unfold truthy, show. destruct (jobLink P) as [j|]; [|done].
  simpl. by destruct (String.eqb j "").
Qed.

Lemma redirect_follows_jobLink_witness :
  (redirect 0 (p_id acme_post) acme_store).1
  = RedirectTo 302 match jobLink acme_post with
                   | Some j => if String.eqb j "" then "/" else j
                   | None => "/"
                   end.
Proof.
  apply (redirect_follows_jobLink acme_trace 0 acme acme_post).
  - by vm_compute.
  - apply list_elem_of_here.
Defined.

(** *** Updating twice *)

Lemma posts_id_insert l (pid i : nat) p q :
  posts_id l pid = Some (i, p) → p_id q = pid →
  posts_id (<[i := q]> l) pid = Some (i, q).
Proof.
  unfold posts_id. intros (Hi & Hp & Hfirst)%list_find_Some Hq.
  apply list_find_Some. split_and!; [|done|].
  - apply list_lookup_insert_eq. by eapply lookup_lt_Some.
  - intros j y Hj Hlt. rewrite list_lookup_insert_ne in Hj by lia. eauto.
Qed.

Lemma update_post_ok (sid pid i : nat) (req : Req) st s p :
  wf_store st → sponsors st !! sid = Some s →
  posts_id (posts s) pid = Some (i, p) →
  update_post sid pid req st
  = (Json 200 (MessagePost "Post updated" (updated req p)),
     {| sponsors :=
          <[sid := set_posts (<[i := updated req p]> (posts s)) s]>
            (sponsors st);
        notifications := notifications st;
        nextId := nextId st |}).
Proof.
  intros Hst Hs Hp. destruct (Hst _ _ Hs) as [Hk Hv _ _ _].
  unfold update_post, findById. rewrite Hs, Hp.
  unfold save, validate. simpl. unfold validate in Hv. by rewrite Hv, Hk.
Qed.

Lemma updated_id (req : Req) p : p_id (updated req p) = p_id p.
Proof. unfold updated. by repeat case_match. Qed.

Lemma updated_updated (req : Req) p :
  updated req (updated req p) = updated req p.
Proof.
  destruct p. unfold updated, set_caption, set_jobLink, set_media. simpl.
  by destruct (truthy (body req !! "caption")),
    (truthy (body req !! "jobLink")), (file req).
Qed.

(** What the handler has read of a request, read twice. *)
Lemma update_post_twice (trace : list Request) (sid pid : nat) (req : Req) :
  let st := run trace empty_store in
  update_post sid pid req (update_post sid pid req st).2
  = update_post sid pid req st.
Proof.
  intros st.
  assert (wf_store st) as Hst by apply wf_run, wf_empty_store.
  destruct (sponsors st !! sid) as [s|] eqn:Hs;
    [|by unfold update_post, findById; rewrite Hs; simpl; rewrite Hs].
  destruct (posts_id (posts s) pid) as [[i p]|] eqn:Hp;
    [|by unfold update_post, findById; rewrite Hs, Hp; simpl; rewrite Hs, Hp].
  pose proof (wf_update_post sid pid req st Hst) as Hst1.
  rewrite (update_post_ok sid pid i req st s p Hst Hs Hp) in *.
  simpl in *.
  rewrite (update_post_ok sid pid i req _
             (set_posts (<[i := updated req p]> (posts s)) s) (updated req p)
             Hst1).
  - simpl. by rewrite updated_updated, list_insert_insert_eq, insert_insert_eq.
  - simpl. apply lookup_insert_eq.
  - simpl. apply (posts_id_insert _ _ _ p); [done|].
    rewrite updated_id. by apply posts_id_Some in Hp as [_ ?].
Qed.

(** The handler reads the text fields and the file, and nothing else. *)
Lemma update_post_ext (sid pid : nat) (req req' : Req) st :
  body req' = body req → file req' = file req →
  update_post sid pid req' st = update_post sid pid req st.
Proof. intros Hb Hf. unfold update_post. by rewrite Hb, Hf. Qed.

(** X9. An update that carries no media file is idempotent: a second
    request with the same text fields and no file gets the same answer
    and leaves the store as the first one left it. *)
Theorem update_post_idempotent (trace : list Request) (sid pid : nat)
    (req req' : Req) :
  let st := run trace empty_store in
  file req = None → file req' = None → body req' = body req →
  update_post sid pid req' (update_post sid pid req st).2
  = update_post sid pid req st.
Proof.
  intros st Hf Hf' Hb.
  rewrite (update_post_ext sid pid req req') by congruence.
  apply update_post_twice.
Qed.

Lemma update_post_idempotent_witness :
  update_post 0 1 (mkReq {[ "caption" := "Closed" ]} None (λ _, 7))
    (update_post 0 1 (mkReq {[ "caption" := "Closed" ]} None no_date)
       acme_store).2
  = update_post 0 1 (mkReq {[ "caption" := "Closed" ]} None no_date)
      acme_store.
Proof.
  apply (update_post_idempotent acme_trace 0 1
           (mkReq {[ "caption" := "Closed" ]} None no_date)
           (mkReq {[ "caption" := "Closed" ]} None (λ _, 7))); reflexivity.
Defined.

(** *** Notifications *)

Lemma handle_notifications (r : Request) st :
  wf_store st →
  ∃ new, notifications (handle r st).2 = (notifications st ++ new)%list
         ∧ Forall (λ n, forAll n = true ∧ n_type n = "sponsor"
                        ∧ ∃ k, sponsorId n = Some k
                               ∧ is_Some (sponsors st !! k)) new.
Proof.
  intros Hst.
  assert (∃ new, notifications st = (notifications st ++ new)%list
         ∧ Forall (λ n, forAll n = true ∧ n_type n = "sponsor"
                        ∧ ∃ k, sponsorId n = Some k
                               ∧ is_Some (sponsors st !! k)) new) as Hnone
    by (exists []; by rewrite app_nil_r).
  destruct r as [req|id req|id|sid pid req|sid pid|sid pid|sid pid|id]; simpl.
  - unfold register. simpl. destruct (save _ _) as [st2|] eqn:Hsave; [|done].
    by apply save_Some in Hsave as ->.
  - unfold add_post, findById.
    destruct (sponsors st !! id) as [s|] eqn:Hs; [|done]. simpl.
    destruct (save _ _) as [st2|] eqn:Hsave; [|done].
    apply save_Some in Hsave as ->. simpl. eexists [_]. split; [done|].
    repeat constructor. simpl. exists id.
    by rewrite (wf_key _ _ _ (Hst _ _ Hs)), Hs.
  - unfold get_posts, findById. by destruct (sponsors st !! id).
  - unfold update_post, findById.
    destruct (sponsors st !! sid) as [s|]; [|done].
    destruct (posts_id _ _) as [[i p]|]; [|done].
    destruct (save _ _) as [st2|] eqn:Hsave; [|done].
    by apply save_Some in Hsave as ->.
  - unfold delete_post, findById.
    destruct (sponsors st !! sid) as [s|]; [|done].
    destruct (posts_id _ _) as [[i p]|]; [|done].
    destruct (save _ _) as [st2|] eqn:Hsave; [|done].
    by apply save_Some in Hsave as ->.
  - unfold register_view, findById.
    destruct (sponsors st !! sid) as [s|]; [|done].
    destruct (posts_id _ _) as [[i p]|]; [|done].
    destruct (save _ _) as [st2|] eqn:Hsave; [|done].
    by apply save_Some in Hsave as ->.
  - unfold redirect, findById.
    destruct (sponsors st !! sid) as [s|]; [|done].
    destruct (posts_id _ _) as [[i p]|]; [|done].
    destruct (save _ _) as [st2|] eqn:Hsave; [|done].
    by apply save_Some in Hsave as ->.
  - unfold delete_sponsor, findByIdAndDelete.
    by destruct (sponsors st !! id).
Qed.

(** X10. No route removes or rewrites a notification: the notifications
    of a reachable store are still there, first and in their order,
    after any further requests, deletions of sponsors and posts
    included. *)
Theorem notifications_only_grow (trace more : list Request) :
  notifications (run trace empty_store)
  `prefix_of` notifications (run (trace ++ more) empty_store).
Proof.
  rewrite run_app.
  assert (wf_store (run trace empty_store)) as Hst
    by apply wf_run, wf_empty_store.
  revert Hst. generalize (run trace empty_store) as st.
  induction more as [|r more IH]; intros st Hst; simpl; [done|].
  etrans; [|apply IH, wf_handle, Hst].
  destruct (handle_notifications r st Hst) as (new & -> & _).
  by apply prefix_app_r.
Qed.

Lemma handle_keeps_notifications (r : Request) st :
  (∀ id req, r ≠ PutPost id req) →
  notifications (handle r st).2 = notifications st.
Proof.
  intros Hr.
  destruct r as [req|id req|id|sid pid req|sid pid|sid pid|sid pid|id]; simpl.
  - unfold register. simpl. destruct (save _ _) as [st2|] eqn:Hsave; [|done].
    by apply save_Some in Hsave as ->.
  - by destruct (Hr id req).
  - unfold get_posts, findById. by destruct (sponsors st !! id).
  - unfold update_post, findById.
    destruct (sponsors st !! sid) as [s|]; [|done].
    destruct (posts_id _ _) as [[i p]|]; [|done].
    destruct (save _ _) as [st2|] eqn:Hsave; [|done].
    by apply save_Some in Hsave as ->.
  - unfold delete_post, findById.
    destruct (sponsors st !! sid) as [s|]; [|done].
    destruct (posts_id _ _) as [[i p]|]; [|done].
    destruct (save _ _) as [st2|] eqn:Hsave; [|done].
    by apply save_Some in Hsave as ->.
  - unfold register_view, findById.
    destruct (sponsors st !! sid) as [s|]; [|done].
    destruct (posts_id _ _) as [[i p]|]; [|done].
    destruct (save _ _) as [st2|] eqn:Hsave; [|done].
    by apply save_Some in Hsave as ->.
  - unfold redirect, findById.
    destruct (sponsors st !! sid) as [s|]; [|done].
    destruct (posts_id _ _) as [[i p]|]; [|done].
    destruct (save _ _) as [st2|] eqn:Hsave; [|done].
    by apply save_Some in Hsave as ->.
  - unfold delete_sponsor, findByIdAndDelete.
    by destruct (sponsors st !! id).
Qed.

(** X11. On a reachable store a request adds a notification only when
    it adds a post to a stored sponsor, and then exactly one, at the
    end: a broadcast of type [sponsor] whose [sponsorId] is the
    identifier of the sponsor the post was added to, with the name of
    that sponsor in its content. *)
Theorem add_post_alone_notifies (trace : list Request) (r : Request) :
  let st := run trace empty_store in
  notifications (handle r st).2
  = (notifications st ++
     match r with
     | PutPost id req =>
         match sponsors st !! id with
         | Some s =>
             [{| n_type := "sponsor"; n_title := "New Sponsorship Alert";
                 n_content := show (companyName s) ++
                              " just posted a new sponsorship opportunity.";
                 sponsorId := Some id; postId := None;
                 n_createdAt := date req 1; forAll := true |}]
         | None => []
         end
     | _ => []
     end)%list.
Proof.
  intros st.
  assert (wf_store st) as Hst by apply wf_run, wf_empty_store.
  destruct r as [req|id req|id|sid pid req|sid pid|sid pid|sid pid|id];
    try (rewrite handle_keeps_notifications, app_nil_r; done).
  simpl. destruct (sponsors st !! id) as [s|] eqn:Hs.
  - by rewrite (add_post_ok id req st s Hst Hs).
  - destruct (unknown_sponsor id 0 req st Hs) as [-> _]. simpl.
    by rewrite app_nil_r.
Qed.

(** *** Counting views *)

Lemma register_view_ok (sid : nat) st s (P : Post) :
  wf_store st → sponsors st !! sid = Some s → P ∈ posts s →
  register_view sid (p_id P) st
  = (Json 200 (Message "View counted"),
     {| sponsors :=
          <[sid := set_posts
                     ((λ Q, if decide (p_id Q = p_id P)
                            then set_views (views Q + 1) Q else Q)
                        <$> posts s) s]> (sponsors st);
        notifications := notifications st;
        nextId := nextId st |}).
Proof.
  intros Hst Hs HP. destruct (Hst _ _ Hs) as [Hk Hv Hc Hn _].
  destruct (posts_id_elem_of _ _ Hn HP) as (i & Hfind & Hi).
  unfold register_view, findById. rewrite Hs, Hfind.
  unfold save, validate. simpl. unfold validate in Hv. rewrite Hv, Hk.
  rewrite num_or_succ, (insert_as_fmap _ i P) by done.
  do 4 f_equal. apply list_fmap_ext. intros j Q HQ.
  destruct (decide (Q = P)) as [->|Hne].
  - by rewrite decide_True.
  - rewrite decide_False; [done|]. intros Hid. apply Hne.
    eapply (same_id_same_post (posts s)); [done| |done..].
    by eapply list_elem_of_lookup_2.
Qed.

Lemma views_added (trace : list Request) (sid : nat) (s : Sponsor)
    (P : Post) (n : nat) :
  let st := run trace empty_store in
  sponsors st !! sid = Some s → P ∈ posts s →
  sponsors (run (replicate n (GetView sid (p_id P))) st) !! sid
  = Some (set_posts
            ((λ Q, if decide (p_id Q = p_id P)
                   then set_views (views Q + Z.of_nat n) Q else Q)
               <$> posts s) s).
Proof.
  intros st. subst st. revert trace s P.
  induction n as [|n IH]; intros trace s P Hs HP.
  - simpl. rewrite Hs. f_equal. destruct s as [? ? ? ? l ?].
    unfold set_posts; simpl. f_equal. symmetry.
    rewrite <- (list_fmap_id l) at 2. apply list_fmap_ext. intros j Q _.
    simpl. case_decide; [|done]. destruct Q. unfold set_views; simpl.
    f_equal. lia.
  - simpl.
    assert (wf_store (run trace empty_store)) as Hst
      by apply wf_run, wf_empty_store.
    rewrite (register_view_ok sid _ s P Hst Hs HP). simpl.
    set (P1 := set_views (views P + 1) P).
    set (s1 := set_posts ((λ Q, if decide (p_id Q = p_id P)
                                then set_views (views Q + 1) Q else Q)
                            <$> posts s) s).
    pose proof (IH (trace ++ [GetView sid (p_id P)])%list s1 P1) as IH'.
    rewrite run_app in IH'. simpl in IH'.
    rewrite (register_view_ok sid _ s P Hst Hs HP) in IH'. simpl in IH'.
    fold s1 in IH'. rewrite IH'.
    + f_equal. subst s1. destruct s as [? ? ? ? l ?]. unfold set_posts; simpl.
      f_equal. rewrite <- list_fmap_compose. apply list_fmap_ext.
      intros j Q _. simpl. destruct (decide (p_id Q = p_id P)) as [HQ|HQ].
      * simpl. rewrite decide_True by done. destruct Q.
        unfold set_views; simpl. f_equal. lia.
      * by rewrite decide_False.
    + apply lookup_insert_eq.
    + subst s1 P1. simpl. apply list_elem_of_fmap. exists P.
      by rewrite decide_True.
Qed.

(** X12. Views add up: after [n] views of a post [P] of a sponsor in a
    reachable store, as long as the count stays within 2^53, the views
    of [P] are [n] more than they were; the views of every other post,
    and the clicks and all the other fields of every post and of the
    sponsor, are what they were. *)
Theorem views_accumulate (trace : list Request) (sid : nat) (s : Sponsor)
    (P : Post) (n : nat) :
  let st := run trace empty_store in
  sponsors st !! sid = Some s → P ∈ posts s →
  (views P + Z.of_nat n ≤ 2 ^ 53)%Z →
  ∃ s',
    sponsors (run (replicate n (GetView sid (p_id P))) st) !! sid = Some s'
    ∧ same_but_posts s s'
    ∧ Forall2 (λ Q Q', post_with_counters
                         (if decide (Q = P) then views Q + Z.of_nat n
                          else views Q)
                         (clicks Q) Q Q')
        (posts s) (posts s').
Proof.
  intros st Hs HP _. eexists. split; [by apply views_added|].
  split; [done|]. simpl.
  apply Forall2_fmap_r, Forall_Forall2_diag, Forall_forall. intros Q HQ.
  assert (wf_store st) as Hst by apply wf_run, wf_empty_store.
  unfold post_with_counters. simpl.
  destruct (decide (Q = P)) as [->|Hne].
  - rewrite decide_True by done. simpl. by repeat split.
  - rewrite decide_False; [by repeat split|]. intros Hid. apply Hne.
    by eapply (same_id_same_post (posts s)); [apply (Hst _ _ Hs)|..].
Qed.

Lemma views_accumulate_witness :
  ∃ s',
    sponsors (run (replicate 3 (GetView 0 (p_id acme_post))) acme_store)
      !! 0%nat = Some s'
    ∧ same_but_posts acme s'
    ∧ Forall2 (λ Q Q', post_with_counters
                         (if decide (Q = acme_post)
                          then views Q + Z.of_nat 3 else views Q)
                         (clicks Q) Q Q')
        (posts acme) (posts s').
Proof.
  apply (views_accumulate acme_trace 0 acme acme_post 3).
  - by vm_compute.
  - apply list_elem_of_here.
  - by vm_compute.
Defined.

End sponsor_extras.

(** * Further properties of the upload pipeline *)
Section pipeline_extras.
Import Upload Sample Names.

Variable env : Env.

#[local] Arguments path_join : simpl never.
#[local] Arguments output_path : simpl never.

Implicit Types (file : File) (w : World).

(** *** The three branches of the compression stage *)

Lemma output_is_not_temp file w (ext : string) :
  output_path env file w ext ≠ temp_path env w.
Proof. unfold output_path, temp_path, path_join, UPLOAD_DIR. simpl. by intros [=]. Qed.

Lemma compress_image file w :
  startsWith (mimetype file) "image/" = true →
  compress env file w
  = match sharp_decode env (buffer file) with
    | inr img =>
        (Ok (output_path env file w ".jpg", "image/jpeg"),
         {| fs := <[output_path env file w ".jpg" := jpeg 60 (resize 600 img)]>
                    (fs w);
            log := log w ++ [Sharp (output_path env file w ".jpg");
                             WriteFile (output_path env file w ".jpg")];
            ticks := S (ticks w) |})
    | inl err =>
        (Throw err,
         {| fs := fs w;
            log := log w ++ [Sharp (output_path env file w ".jpg")];
            ticks := S (ticks w) |})
    end.
Proof.
  intros Hi. unfold compress, mbind, M_bind, bind, Date_now. simpl.
  rewrite Hi. unfold compressImage, mbind, M_bind, bind, emit. simpl.
  destruct (sharp_decode env (buffer file)); simpl; [done|].
  by rewrite <- app_assoc.
Qed.

Lemma compress_video_run file w :
  startsWith (mimetype file) "image/" = false →
  startsWith (mimetype file) "video/" = true →
  compress env file w
  = match ffmpeg env (buffer file) with
    | FfEnd =>
        (Ok (output_path env file w ".mp4", "video/mp4"),
         {| fs := delete (temp_path env w)
                    (<[output_path env file w ".mp4" := Mp4 28 (buffer file)]>
                       (<[temp_path env w := Bytes (buffer file)]> (fs w)));
            log := log w ++ [WriteFile (temp_path env w);
                             Ffmpeg (temp_path env w)
                               (output_path env file w ".mp4");
                             WriteFile (output_path env file w ".mp4");
                             Unlink (temp_path env w)];
            ticks := S (S (ticks w)) |})
    | FfError err =>
        (Throw err,
         {| fs := delete (temp_path env w)
                    (<[temp_path env w := Bytes (buffer file)]> (fs w));
            log := log w ++ [WriteFile (temp_path env w);
                             Ffmpeg (temp_path env w)
                               (output_path env file w ".mp4");
                             Unlink (temp_path env w)];
            ticks := S (S (ticks w)) |})
    end.
Proof.
  intros Hi Hv. rewrite (compress_video env file w Hi Hv), compressVideo_run.
  simpl. by destruct (ffmpeg env (buffer file)).
Qed.

Lemma compress_other file w :
  startsWith (mimetype file) "image/" = false →
  startsWith (mimetype file) "video/" = false →
  compress env file w
  = (Ok (output_path env file w (toLowerCase (extname (originalname file))),
         mimetype file),
     {| fs := <[output_path env file w
                  (toLowerCase (extname (originalname file)))
                := Bytes (buffer file)]> (fs w);
        log := log w ++ [WriteFile
                           (output_path env file w
                              (toLowerCase (extname (originalname file))))];
        ticks := S (ticks w) |}).
Proof.
  intros Hi Hv. unfold compress, mbind, M_bind, bind, Date_now. simpl.
  rewrite Hi, Hv. by unfold mbind, M_bind, bind, writeFileSync.
Qed.

(** What a successful compression leaves at the path it returns, and
    that it leaves nothing else behind. *)
Lemma compress_Ok file w (out mime : string) (w1 : World) :
  compress env file w = (Ok (out, mime), w1) →
  is_Some (fs w1 !! out) ∧ delete out (fs w1) ⊆ fs w.
Proof.
  destruct (startsWith (mimetype file) "image/") eqn:Hi.
  { rewrite (compress_image file w Hi).
    destruct (sharp_decode env (buffer file)); [done|]. intros [= <- <- <-].
    simpl. rewrite lookup_insert_eq. split; [done|].
    rewrite delete_insert_eq. apply delete_subseteq. }
  destruct (startsWith (mimetype file) "video/") eqn:Hv.
  { rewrite (compress_video_run file w Hi Hv).
    destruct (ffmpeg env (buffer file)); [|done]. intros [= <- <- <-]. simpl.
    pose proof (output_is_not_temp file w ".mp4") as Hne. split.
    - rewrite lookup_delete_ne, lookup_insert_eq; done.
    - apply map_subseteq_spec. intros p d.
      rewrite !lookup_delete_Some, !lookup_insert_Some.
      intros (Ho & Ht & [[? _]|[_ [[? _]|[_ ?]]]]); done. }
  rewrite (compress_other file w Hi Hv). intros [= <- <- <-]. simpl.
  rewrite lookup_insert_eq. split; [done|].
  rewrite delete_insert_eq. apply delete_subseteq.
Qed.

(** A file that went through: it was compressed, the media store took
    it, and the local copy was removed. *)
Lemma process_file_Ok file w (r : UploadedFile) (w' : World) :
  process_file env file w = (Ok r, w') →
  ∃ out mime w1 data secure_url id,
    compress env file w = (Ok (out, mime), w1)
    ∧ fs w1 !! out = Some data
    ∧ cloudinary_upload env out data = inr (secure_url, id)
    ∧ r = {| name := originalname file; url := secure_url;
             public_id := id; type := mime |}
    ∧ w' = {| fs := delete out (fs w1);
              log := log w1 ++ [Cloudinary out "uploads"; Unlink out];
              ticks := ticks w1 |}.
Proof.
  unfold process_file, mbind, M_bind, bind.
  destruct (compress env file w) as [[[out mime]|err] w1] eqn:Hc; [|done].
  unfold uploadToCloudinary, mbind, M_bind, bind, emit. simpl.
  destruct (fs w1 !! out) as [data|] eqn:Hout; [|done].
  destruct (cloudinary_upload env out data) as [msg|[secure_url id]] eqn:Hup;
    [done|].
  unfold unlinkSync. simpl. rewrite Hout. intros [= <- <-].
  eexists out, mime, w1, data, secure_url, id. split_and!; try done.
  by rewrite <- app_assoc.
Qed.

(** *** Videos and other files *)

(** X13. A file declared [video/...] that ffmpeg transcodes is
    compressed to an MP4 at constant rate factor 28; the temporary input
    is gone; the resolved type is [video/mp4], whatever the declared
    subtype, and it is the type of the result the pipeline returns for
    the file. *)
Theorem video_upload_is_mp4 file w :
  startsWith (mimetype file) "image/" = false →
  startsWith (mimetype file) "video/" = true →
  ffmpeg env (buffer file) = FfEnd →
  (∃ out w1,
     compress env file w = (Ok (out, "video/mp4"), w1)
     ∧ fs w1 !! out = Some (Mp4 28 (buffer file))
     ∧ fs w1 !! temp_path env w = None)
  ∧ (∀ r w', process_file env file w = (Ok r, w') → type r = "video/mp4").
Proof.
  intros Hi Hv Hff.
  pose proof (compress_video_run file w Hi Hv) as Hc. rewrite Hff in Hc.
  split.
  - eexists _, _. split; [exact Hc|]. simpl.
    pose proof (output_is_not_temp file w ".mp4").
    by rewrite lookup_delete_ne, lookup_insert_eq, lookup_delete_eq.
  - intros r w' (out & mime & w1 & ? & ? & ? & Hc' & _ & _ & -> & _)
      %process_file_Ok.
    rewrite Hc in Hc'. by injection Hc' as <- <- <-.
Qed.

(** X14. When a file whose declared type starts neither with [image/]
    nor with [video/] comes out of the compression stage, it has been
    written to disk byte for byte and nothing else has been done: no
    other file is touched, and sharp and ffmpeg are not called.  The
    resolved type, which is the type of the pipeline's result, is the
    declared one. *)
Theorem other_upload_is_unchanged file w (out mime : string) (w1 : World) :
  startsWith (mimetype file) "image/" = false →
  startsWith (mimetype file) "video/" = false →
  compress env file w = (Ok (out, mime), w1) →
  mime = mimetype file
  ∧ fs w1 = <[out := Bytes (buffer file)]> (fs w)
  ∧ log w1 = (log w ++ [WriteFile out])%list
  ∧ (∀ r w', process_file env file w = (Ok r, w') → type r = mimetype file).
Proof.
  intros Hi Hv Hc. pose proof (compress_other file w Hi Hv) as Hc'.
  rewrite Hc in Hc'. injection Hc' as -> -> ->. split_and!; try done.
  intros r w' (out' & mime & w1 & ? & ? & ? & Hc' & _ & _ & -> & _)
    %process_file_Ok.
  rewrite Hc in Hc'. by injection Hc' as <- <- <-.
Qed.

(** *** The whole batch *)

Lemma for_files_app (l1 l2 : list File) (acc : list UploadedFile) w :
  for_files env (l1 ++ l2)%list acc w
  = match for_files env l1 acc w with
    | (Ok acc', w1) => for_files env l2 acc' w1
    | (Throw err, w1) => (Throw err, w1)
    end.
Proof.
  revert acc w. induction l1 as [|f l1 IH]; intros acc w; simpl; [done|].
  unfold mbind, M_bind, bind.
  destruct (process_file env f w) as [[r|err] w1]; [apply IH|done].
Qed.

Lemma for_files_Ok (files : list File) (acc out : list UploadedFile) w w' :
  for_files env files acc w = (Ok out, w') →
  fs w' ⊆ fs w
  ∧ name <$> out = ((name <$> acc) ++ (originalname <$> files))%list.
Proof.
  revert acc w. induction files as [|f files IH]; intros acc w; simpl.
  - intros [= <- <-]. by rewrite app_nil_r.
  - unfold mbind, M_bind, bind.
    destruct (process_file env f w) as [[r|err] w1] eqn:Hf; [|done].
    intros [Hfs Hnames]%IH.
    apply process_file_Ok in Hf
      as (o & mime & w0 & ? & ? & ? & Hc & _ & _ & -> & ->).
    apply compress_Ok in Hc as [_ Hsub]. simpl in *. split.
    + by etrans.
    + rewrite Hnames, fmap_app, <- app_assoc. done.
Qed.

(** X15. A request that is answered 200 leaves no file behind: every
    local file that exists afterwards existed before, with the same
    content. *)
Theorem successful_upload_leaves_no_file (files : list File)
    (out : list UploadedFile) w w' :
  post_upload env (Some files) w = (Success 200 out, w') →
  fs w' ⊆ fs w.
Proof.
  unfold post_upload. destruct files as [|f files]; [done|].
  destruct (for_files env (f :: files) [] w) as [[res|err] w1] eqn:Hrun;
    [|done].
  intros [= <- <-]. by apply for_files_Ok in Hrun as [? _].
Qed.

(** X16. A request that is answered 200 returns one result per file, in
    the order of the files, each under the original name of its file. *)
Theorem results_follow_input_order (files : list File)
    (out : list UploadedFile) w w' :
  post_upload env (Some files) w = (Success 200 out, w') →
  name <$> out = originalname <$> files.
Proof.
  unfold post_upload. destruct files as [|f files]; [done|].
  destruct (for_files env (f :: files) [] w) as [[res|err] w1] eqn:Hrun;
    [|done].
  intros [= <- <-]. by apply for_files_Ok in Hrun as [_ ?].
Qed.

(** X17. The loop stops at the first file that fails: when the files up
    to and including [f] make the request fail, the answer and the world
    are the same whatever files follow [f]; they are not looked at. *)
Theorem upload_stops_at_first_failure (before after : list File) (f : File)
    w (err : string) (w1 : World) :
  for_files env (before ++ [f])%list [] w = (Throw err, w1) →
  post_upload env (Some (before ++ f :: after)%list) w
  = post_upload env (Some (before ++ [f])%list) w
  ∧ (post_upload env (Some (before ++ [f])%list) w).1
    = Failure 500 "Upload failed" (Some err).
Proof.
  intros Hrun.
  assert (for_files env (before ++ f :: after)%list [] w = (Throw err, w1)) as Hall.
  { rewrite (cons_middle f before after), app_assoc, for_files_app.
    by rewrite Hrun. }
  unfold post_upload.
  destruct (before ++ f :: after)%list eqn:E1; [by destruct before|].
  destruct (before ++ [f])%list eqn:E2; [by destruct before|].
  by rewrite Hall, Hrun.
Qed.

(** X18. The local file is removed only after the media store has taken
    it: when the store refuses the compressed file, the request fails
    with the store's message behind [Cloudinary Upload Failed: ], and
    the compressed file is still on disk. *)
Theorem failed_remote_upload_keeps_local_file file w (out mime : string)
    (w1 : World) (data : FileData) (message : string) :
  compress env file w = (Ok (out, mime), w1) →
  fs w1 !! out = Some data →
  cloudinary_upload env out data = inl message →
  ∃ w', post_upload env (Some [file]) w
        = (Failure 500 "Upload failed"
             (Some ("Cloudinary Upload Failed: " ++ message)), w')
        ∧ fs w' = fs w1
        ∧ fs w' !! out = Some data
        ∧ Unlink out ∉ drop (length (log w1)) (log w').
Proof.
  intros Hc Hout Hup. unfold post_upload, for_files, process_file.
  unfold mbind at 1 2. unfold M_bind, bind. rewrite Hc.
  unfold uploadToCloudinary, mbind, M_bind, bind, emit. simpl.
  rewrite Hout, Hup. simpl. eexists. split; [done|]. simpl.
  split_and!; [done..|].
  rewrite <- app_assoc, drop_app_length.
  intros [[=]|[[=]|[]%elem_of_nil]%elem_of_cons]%elem_of_cons.
Qed.

(** *** Sanitised names *)

Lemma safe_char (c : ascii) :
  is_safe_char (lower (if is_alnum c then c else "_"%char)) = true.
Proof. by destruct c as [[] [] [] [] [] [] [] []]. Qed.

(** X19. The name the pipeline derives from the original file name is
    made of digits, small letters and underscores only, one character
    for each character of the base name. *)
Theorem safeName_is_sanitized (s : string) :
  forallb is_safe_char
    (list_ascii_of_string (toLowerCase (replace_non_alnum s))) = true
  ∧ String.length (toLowerCase (replace_non_alnum s)) = String.length s.
Proof.
  induction s as [|c s [IH1 IH2]]; [done|].
  unfold toLowerCase, replace_non_alnum in *. simpl.
  by rewrite safe_char, IH1, IH2.
Qed.

End pipeline_extras.

Section pipeline_extras_witnesses.
Import Upload Sample Names.

Lemma video_upload_is_mp4_witness :
  (∃ out w1,
     compress env0 clip w0 = (Ok (out, "video/mp4"), w1)
     ∧ fs w1 !! out = Some (Mp4 28 (buffer clip))
     ∧ fs w1 !! temp_path env0 w0 = None)
  ∧ (∀ r w', process_file env0 clip w0 = (Ok r, w') → type r = "video/mp4").
Proof. apply (video_upload_is_mp4 env0 clip w0); reflexivity. Defined.

Lemma other_upload_is_unchanged_witness :
  "text/plain" = mimetype notes
  ∧ fs (compress env0 notes w0).2
    = <["uploads/compressed-my_notes_txt-1700.txt" := Bytes (buffer notes)]>
        (fs w0)
  ∧ log (compress env0 notes w0).2
    = (log w0 ++ [WriteFile "uploads/compressed-my_notes_txt-1700.txt"])%list
  ∧ (∀ r w', process_file env0 notes w0 = (Ok r, w')
             → type r = mimetype notes).
Proof.
  apply (other_upload_is_unchanged env0 notes w0
           "uploads/compressed-my_notes_txt-1700.txt" "text/plain"
           (compress env0 notes w0).2); by vm_compute.
Defined.

Lemma successful_upload_leaves_no_file_witness :
  fs (post_upload env0 (Some [photo; clip; notes]) w0).2 ⊆ fs w0.
Proof.
  apply (successful_upload_leaves_no_file env0 [photo; clip; notes]
           (match (post_upload env0 (Some [photo; clip; notes]) w0).1 with
            | Success _ out => out
            | Failure _ _ _ => []
            end) w0).
  by vm_compute.
Defined.

Lemma results_follow_input_order_witness :
  name <$> match (post_upload env0 (Some [photo; clip; notes]) w0).1 with
           | Success _ out => out
           | Failure _ _ _ => []
           end
  = originalname <$> [photo; clip; notes].
Proof.
  apply (results_follow_input_order env0 [photo; clip; notes] _ w0
           (post_upload env0 (Some [photo; clip; notes]) w0).2).
  by vm_compute.
Defined.

Lemma upload_stops_at_first_failure_witness :
  post_upload env0 (Some ([photo] ++ broken_clip :: [notes; clip])%list) w0
  = post_upload env0 (Some ([photo] ++ [broken_clip])%list) w0
  ∧ (post_upload env0 (Some ([photo] ++ [broken_clip])%list) w0).1
    = Failure 500 "Upload failed"
        (Some "Invalid data found when processing input").
Proof.
  apply (upload_stops_at_first_failure env0 [photo] [notes; clip] broken_clip
           w0 "Invalid data found when processing input"
           (for_files env0 [photo; broken_clip] [] w0).2).
  by vm_compute.
Defined.

Lemma failed_remote_upload_keeps_local_file_witness :
  ∃ w', post_upload env_down (Some [notes]) w0
        = (Failure 500 "Upload failed"
             (Some ("Cloudinary Upload Failed: " ++ "503 Service Unavailable")),
           w')
        ∧ fs w' = fs (compress env_down notes w0).2
        ∧ fs w' !! "uploads/compressed-my_notes_txt-1700.txt"
          = Some (Bytes (buffer notes))
        ∧ Unlink "uploads/compressed-my_notes_txt-1700.txt"
          ∉ drop (length (log (compress env_down notes w0).2)) (log w').
Proof.
  apply (failed_remote_upload_keeps_local_file env_down notes w0
           "uploads/compressed-my_notes_txt-1700.txt" "text/plain"
           (compress env_down notes w0).2 (Bytes (buffer notes))
           "503 Service Unavailable"); by vm_compute.
Defined.

End pipeline_extras_witnesses.
